(** * ticketmaster_anaylsis: a shallow embedding of the three pipelines

    The module [ticketmaster_anaylsis.py] offers [find_attraction_info]
    (memoised by [functools.lru_cache]), [get_performer_events_1] and
    [fetch_filtered_events].  Each sends GET requests in a retry loop and
    flattens the decoded JSON body into the rows of a table.

    Conventions of the embedding:
    - a decoded JSON document is a [pyval]; a JSON number is a Python
      [int] (an integer of any size) or a Python [float] (an IEEE 754
      binary64 number, [spec_float] with precision 53 and maximal exponent
      1024); arithmetic is Python's: exact on integers, rounded to nearest
      even on floats, and [OverflowError] where an integer does not fit a
      float;
    - text is a [string] of ASCII characters; [lower] and [split] follow
      [str.lower] and [str.split] on ASCII;
    - a call either returns or raises: [result];
    - the network is a function from the number of requests already sent
      and the request to a [reply]; the requests sent and the delays slept
      are recorded in a [world] that is threaded through every call;
    - a table ([pandas.DataFrame]) is the list of its rows. *)

From Stdlib Require Import String Ascii List ZArith QArith Qpower Bool Lia.
From Stdlib Require Import Floats.SpecFloat.
Import ListNotations.
Open Scope string_scope.
Open Scope Z_scope.
Set Warnings "-register-all".

(** ** Python values and exceptions *)

Inductive pyval : Type :=
| VNone
| VBool (b : bool)
| VInt (z : Z)
| VFloat (f : spec_float)
| VStr (s : string)
| VList (l : list pyval)
| VDict (d : list (string * pyval)).

Inductive exn : Type :=
| ValueError (msg : string)
| KeyError
| IndexError
| TypeError
| AttributeError
| UnboundLocalError
| OverflowError
| HTTPError (msg : string)
| ConnectionError (msg : string)
| JSONDecodeError.

(** [requests.exceptions.RequestException] and its subclasses. *)
Definition is_RequestException (e : exn) : bool :=
  match e with
  | HTTPError _ | ConnectionError _ | JSONDecodeError => true
  | _ => false
  end.

Definition is_HTTPError (e : exn) : bool :=
  match e with
  | HTTPError _ => true
  | _ => false
  end.

Inductive result (A : Type) : Type :=
| Ok (a : A)
| Raise (e : exn).
Arguments Ok {A} a.
Arguments Raise {A} e.

Definition bind {A B : Type} (r : result A) (k : A -> result B) : result B :=
  match r with
  | Ok a => k a
  | Raise e => Raise e
  end.

Notation "x <- r ;; k" := (bind r (fun x => k))
  (at level 61, r at next level, right associativity).

Fixpoint mapM {A B : Type} (f : A -> result B) (l : list A) : result (list B) :=
  match l with
  | [] => Ok []
  | x :: l' => y <- f x ;; ys <- mapM f l' ;; Ok (y :: ys)
  end.

(** ** Text *)

Definition is_upper (c : ascii) : bool :=
  let n := nat_of_ascii c in (65 <=? n)%nat && (n <=? 90)%nat.

Definition lower_char (c : ascii) : ascii :=
  if is_upper c then ascii_of_nat (nat_of_ascii c + 32) else c.

(** [str.lower] *)
Fixpoint lower (s : string) : string :=
  match s with
  | EmptyString => EmptyString
  | String c s' => String (lower_char c) (lower s')
  end.

(** The characters [str.split] treats as separators: tab, line feed,
    vertical tab, form feed, carriage return, the four separators
    0x1c-0x1f and the space. *)
Definition is_space (c : ascii) : bool :=
  let n := nat_of_ascii c in
  ((9 <=? n)%nat && (n <=? 13)%nat) || ((28 <=? n)%nat && (n <=? 32)%nat).

Definition flush (cur : string) (rest : list string) : list string :=
  match cur with
  | EmptyString => rest
  | _ => cur :: rest
  end.

Fixpoint split_from (cur : string) (s : string) : list string :=
  match s with
  | EmptyString => flush cur []
  | String c s' =>
      if is_space c then flush cur (split_from EmptyString s')
      else split_from (cur ++ String c EmptyString) s'
  end.

(** [str.split()] without arguments: the maximal runs of characters that
    are not white space. *)
Definition split (s : string) : list string := split_from EmptyString s.

(** [needle in haystack] on two strings. *)
Definition contains (needle haystack : string) : bool :=
  match index 0 needle haystack with
  | Some _ => true
  | None => false
  end.

(** ** Operations on values *)

Fixpoint lookup (k : string) (d : list (string * pyval)) : option pyval :=
  match d with
  | [] => None
  | (k', v) :: d' => if String.eqb k k' then Some v else lookup k d'
  end.

(** [bool(v)] *)
Definition truthy (v : pyval) : bool :=
  match v with
  | VNone => false
  | VBool b => b
  | VInt z => negb (z =? 0)
  | VFloat f => match f with S754_zero _ => false | _ => true end
  | VStr s => negb (String.eqb s EmptyString)
  | VList l => match l with [] => false | _ => true end
  | VDict d => match d with [] => false | _ => true end
  end.

(** [v.get(k, default)]: only a dict has the method. *)
Definition py_get (v : pyval) (k : string) (default : pyval) : result pyval :=
  match v with
  | VDict d => Ok (match lookup k d with Some x => x | None => default end)
  | _ => Raise AttributeError
  end.

(** [v[k]] with a string key. *)
Definition py_item (v : pyval) (k : string) : result pyval :=
  match v with
  | VDict d => match lookup k d with Some x => Ok x | None => Raise KeyError end
  | _ => Raise TypeError
  end.

Definition first_char (s : string) : option string :=
  match s with
  | EmptyString => None
  | String c _ => Some (String c EmptyString)
  end.

(** [v[0]]: a decoded JSON object has string keys only, so the key 0 is
    never found in a dict. *)
Definition py_item0 (v : pyval) : result pyval :=
  match v with
  | VList (x :: _) => Ok x
  | VList [] => Raise IndexError
  | VStr s => match first_char s with Some c => Ok (VStr c) | None => Raise IndexError end
  | VDict _ => Raise KeyError
  | _ => Raise TypeError
  end.

Definition is_str (k : string) (v : pyval) : bool :=
  match v with
  | VStr s => String.eqb s k
  | _ => false
  end.

(** [k in v] with a string [k]. *)
Definition py_in (k : string) (v : pyval) : result bool :=
  match v with
  | VDict d => Ok (match lookup k d with Some _ => true | None => false end)
  | VList l => Ok (existsb (is_str k) l)
  | VStr s => Ok (contains k s)
  | _ => Raise TypeError
  end.

Fixpoint chars (s : string) : list pyval :=
  match s with
  | EmptyString => []
  | String c s' => VStr (String c EmptyString) :: chars s'
  end.

(** The elements a [for] loop over [v] visits. *)
Definition py_iter (v : pyval) : result (list pyval) :=
  match v with
  | VList l => Ok l
  | VDict d => Ok (map (fun kv => VStr (fst kv)) d)
  | VStr s => Ok (chars s)
  | _ => Raise TypeError
  end.

(** [v.lower().split()] *)
Definition py_lower_split (v : pyval) : result (list string) :=
  match v with
  | VStr s => Ok (split (lower s))
  | _ => Raise AttributeError
  end.

(** *** Numbers

    A Python [float] is a binary64 number. *)
Definition prec : Z := 53.
Definition emax : Z := 1024.

(** The float nearest to [m * 2^e] (ties to even), as [float(m)] gives it
    for [e = 0] and the true division [m / 2] of two integers for
    [e = -1]: both raise [OverflowError] where the rounded value is out of
    the range of a float. *)
Definition float_of (m e : Z) : result spec_float :=
  match binary_normalize prec emax m e false with
  | S754_infinity _ => Raise OverflowError
  | f => Ok f
  end.

(** [2.0] *)
Definition two : spec_float := S754_finite false 4503599627370496 (-51).

(** The operands of arithmetic: [bool] is a subclass of [int]. *)
Inductive number : Type :=
| NInt (z : Z)
| NFloat (f : spec_float).

Definition as_number (v : pyval) : option number :=
  match v with
  | VInt z => Some (NInt z)
  | VFloat f => Some (NFloat f)
  | VBool b => Some (NInt (if b then 1 else 0))
  | _ => None
  end.

(** [x + y]: exact on two integers; an integer that meets a float is
    converted to a float first, and the sum of two floats is rounded and
    never raises. *)
Definition num_add (x y : number) : result number :=
  match x, y with
  | NInt a, NInt b => Ok (NInt (a + b))
  | NInt a, NFloat g => f <- float_of a 0 ;; Ok (NFloat (SFadd prec emax f g))
  | NFloat f, NInt b => g <- float_of b 0 ;; Ok (NFloat (SFadd prec emax f g))
  | NFloat f, NFloat g => Ok (NFloat (SFadd prec emax f g))
  end.

(** [x / 2]: the true division of an integer by 2 is the correctly rounded
    quotient; a float is divided by [2.0]. *)
Definition num_half (x : number) : result spec_float :=
  match x with
  | NInt a => float_of a (-1)
  | NFloat f => Ok (SFdiv prec emax f two)
  end.

(** [(a + b) / 2].  Two strings or two lists can be added, but the sum
    cannot be divided; every other mix of operands that are not numbers
    fails at the sum. *)
Definition py_average (a b : pyval) : result pyval :=
  match as_number a, as_number b with
  | Some x, Some y => s <- num_add x y ;; h <- num_half s ;; Ok (VFloat h)
  | _, _ => Raise TypeError
  end.

(** ** Requests, responses and the world *)

Record request : Type := mkRequest {
  url : string;
  params : list (string * option string)
}.

(** What the code observes of a response object: its [status_code], what
    [raise_for_status()] does ([Some msg]: it raises [HTTPError] with that
    text), the truth value of the object, and what [json()] gives ([None]:
    the body is not JSON and [json()] raises). *)
Record response : Type := mkResponse {
  status_code : Z;
  http_error : option string;
  is_true : bool;
  body : option pyval
}.

(** A [requests.Response]: [raise_for_status()] raises exactly for the
    statuses 400 to 599, with the text [error_text], and
    [Response.__bool__] is [Response.ok], which is false exactly when
    [raise_for_status()] raises. *)
Definition http_response (status : Z) (error_text : string)
    (b : option pyval) : response :=
  if (400 <=? status) && (status <? 600)
  then mkResponse status (Some error_text) false b
  else mkResponse status None true b.

(** A [unittest.mock.Mock] carrying a status and a body, as the test suite
    builds them: [raise_for_status()] returns and the object is true. *)
Definition mock_response (status : Z) (b : option pyval) : response :=
  mkResponse status None true b.

Definition json (r : response) : result pyval :=
  match body r with
  | Some v => Ok v
  | None => Raise JSONDecodeError
  end.

Inductive reply : Type :=
| Responds (r : response)
| Fails (e : exn).

(** The upstream service: the reply to a request, given how many requests
    were sent before it. *)
Definition network : Type := nat -> request -> reply.

(** The requests sent and the delays slept so far, newest first. *)
Record world : Type := mkWorld {
  sent : list request;
  slept : list Z
}.

Definition fresh : world := mkWorld [] [].

Definition sleep (delay : Z) (w : world) : world :=
  mkWorld (sent w) (delay :: slept w).

(** A formatted string: the literal parts of an f-string and the values put
    between them. *)
Inductive piece : Type :=
| Lit (s : string)
| Int (n : Z)
| Exc (e : exn).

Definition message : Type := list piece.

(** What an operation returns: the table and the error message. *)
Definition envelope (R : Type) : Type := (list R * option message)%type.

(** How a retry loop ends: it is left ([break], or no attempt remains) with
    the [response] variable as it stands ([None]: never assigned), it
    executes [return], or an exception leaves the function. *)
Inductive loop_exit (R : Type) : Type :=
| Leave (resp : option response)
| Return (r : envelope R)
| Throw (e : exn).
Arguments Leave {R} resp.
Arguments Return {R} r.
Arguments Throw {R} e.

(** [range(n)] *)
Definition range (n : Z) : list Z := map Z.of_nat (seq 0 (Z.to_nat n)).

(** ** Rows *)

Record attraction_row : Type := mkAttraction {
  a_name : pyval;
  a_ID : pyval;
  a_ticketmaster_upcoming : pyval;
  a_total_upcoming : pyval
}.

Record event_row : Type := mkEvent {
  e_Event_Name : pyval;
  e_Event_ID : pyval;
  e_Start_Date : pyval;
  e_Start_Time : pyval;
  e_Venue : pyval;
  e_Venue_ID : pyval;
  e_City : pyval;
  e_Country : pyval;
  e_publicsale_start : pyval;
  e_publicsale_end : pyval;
  e_presale_start : pyval;
  e_presale_end : pyval;
  e_Min_Price : pyval;
  e_Max_Price : pyval;
  e_Average_Price : pyval
}.

Record filtered_row : Type := mkFiltered {
  f_ID : pyval;
  f_Venue_ID : pyval;
  f_Start_DateTime : pyval;
  f_End_DateTime : pyval;
  f_City : pyval;
  f_State_Code : pyval;
  f_Country_Code : pyval;
  f_Onsale_Start_DateTime : pyval;
  f_Onsale_End_DateTime : pyval;
  f_Local_Start_DateTime : pyval;
  f_Local_End_DateTime : pyval;
  f_Start_End_DateTime : pyval
}.

Definition empty_dict : pyval := VDict [].
Definition one_empty_dict : pyval := VList [VDict []].

(** [v.get(k1, {}).get(k2)] *)
Definition get2 (v : pyval) (k1 k2 : string) (default : pyval) : result pyval :=
  x <- py_get v k1 empty_dict ;; py_get x k2 default.

(** [v.get(k1, {}).get(k2, {}).get(k3)] *)
Definition get3 (v : pyval) (k1 k2 k3 : string) : result pyval :=
  x <- py_get v k1 empty_dict ;; y <- py_get x k2 empty_dict ;; py_get y k3 VNone.

(** [event.get('_embedded', {}).get('venues', [{}])[0]] *)
Definition venue0 (event : pyval) : result pyval :=
  vs <- get2 event "_embedded" "venues" one_empty_dict ;; py_item0 vs.

(** [event.get('sales', {}).get('presale', [{}])[0]] *)
Definition presale0 (event : pyval) : result pyval :=
  ps <- get2 event "sales" "presale" one_empty_dict ;; py_item0 ps.

Definition extract_attraction_info (attraction : pyval) : result attraction_row :=
  name <- py_get attraction "name" (VStr "N/A") ;;
  id <- py_get attraction "id" (VStr "N/A") ;;
  tm <- get2 attraction "upcomingEvents" "ticketmaster" (VInt 0) ;;
  total <- get2 attraction "upcomingEvents" "_total" (VInt 0) ;;
  Ok (mkAttraction name id tm total).

(** The first statements of [extract_event_info]: the two prices. *)
Definition extract_prices (event : pyval) : result (pyval * pyval) :=
  has <- py_in "priceRanges" event ;;
  if has then
    ranges <- py_item event "priceRanges" ;;
    prices <- py_item0 ranges ;;
    min_price <- py_get prices "min" VNone ;;
    max_price <- py_get prices "max" VNone ;;
    Ok (min_price, max_price)
  else Ok (VNone, VNone).

(** [(min_price + max_price) / 2 if min_price and max_price else None] *)
Definition average_of (min_price max_price : pyval) : result pyval :=
  if truthy min_price && truthy max_price
  then py_average min_price max_price else Ok VNone.

Definition extract_event_info (event : pyval) : result event_row :=
  mm <- extract_prices event ;;
  let min_price := fst mm in
  let max_price := snd mm in
  avg_price <- average_of min_price max_price ;;
  venue_id <- (v <- venue0 event ;; py_get v "id" (VStr "N/A")) ;;
  name <- py_get event "name" VNone ;;
  id <- py_get event "id" VNone ;;
  start_date <- get3 event "dates" "start" "localDate" ;;
  start_time <- get3 event "dates" "start" "localTime" ;;
  venue <- (v <- venue0 event ;; py_get v "name" VNone) ;;
  city <- (v <- venue0 event ;; get2 v "city" "name" VNone) ;;
  country <- (v <- venue0 event ;; get2 v "country" "name" VNone) ;;
  public_start <- get3 event "sales" "public" "startDateTime" ;;
  public_end <- get3 event "sales" "public" "endDateTime" ;;
  presale_start <- (p <- presale0 event ;; py_get p "startDateTime" VNone) ;;
  presale_end <- (p <- presale0 event ;; py_get p "endDateTime" VNone) ;;
  Ok (mkEvent name id start_date start_time venue venue_id city country
        public_start public_end presale_start presale_end
        min_price max_price avg_price).

(** The dict built for each event in [fetch_filtered_events]. *)
Definition filtered_event_info (event : pyval) : result filtered_row :=
  id <- py_get event "id" VNone ;;
  venue_id <- (v <- venue0 event ;; py_get v "id" VNone) ;;
  start_dt <- get3 event "dates" "start" "dateTime" ;;
  end_dt <- get3 event "dates" "end" "dateTime" ;;
  city <- (v <- venue0 event ;; get2 v "city" "name" VNone) ;;
  state <- (v <- venue0 event ;; get2 v "state" "stateCode" VNone) ;;
  country <- (v <- venue0 event ;; get2 v "country" "countryCode" VNone) ;;
  onsale_start <- get3 event "sales" "public" "startDateTime" ;;
  onsale_end <- get3 event "sales" "public" "endDateTime" ;;
  local_start <- get3 event "dates" "start" "localDate" ;;
  local_end <- get3 event "dates" "end" "localDate" ;;
  tz <- get2 event "dates" "timezone" VNone ;;
  Ok (mkFiltered id venue_id start_dt end_dt city state country
        onsale_start onsale_end local_start local_end tz).

(** ** The three operations *)

Section Operations.

Variable env : network.

(** [requests.get]: the reply depends on the requests sent before. *)
Definition send (req : request) (w : world) : reply * world :=
  (env (length (sent w)) req, mkWorld (req :: sent w) (slept w)).

Definition no_match : message := [Lit "No matching attractions found."].
Definition no_match_name : message :=
  [Lit "No matching attractions found with the name."].
Definition no_match_id : message := [Lit "No matching attractions found by ID."].
Definition empty_identifier : message := [Lit "Identifier cannot be empty."].
Definition invalid_type : exn :=
  ValueError "Invalid identifier type. Must be 'name' or 'id'.".

Definition find_link (identifier identifier_type api_key : string) : string :=
  if String.eqb identifier_type "name"
  then "https://app.ticketmaster.com/discovery/v2/attractions.json?keyword="
         ++ identifier ++ "&apikey=" ++ api_key
  else "https://app.ticketmaster.com/discovery/v2/attractions/"
         ++ identifier ++ ".json?apikey=" ++ api_key.

(** The retry loop of [find_attraction_info], [max_retries] being 5. *)
Fixpoint find_loop (link : string) (attempts : list Z) (retry_delay : Z)
    (resp : option response) (w : world)
  : loop_exit attraction_row * world :=
  match attempts with
  | [] => (Leave resp, w)
  | attempt :: rest =>
      let except (e : exn) (resp' : option response) (w' : world) :=
        if attempt =? 5 - 1
        then (Return ([], Some [Lit "Failed to fetch data after "; Int 5;
                                Lit " attempts. Error: "; Exc e]), w')
        else find_loop link rest (retry_delay * 2) resp' (sleep retry_delay w') in
      match send (mkRequest link []) w with
      | (Responds r, w1) =>
          if status_code r =? 429
          then find_loop link rest (retry_delay * 2) (Some r) (sleep retry_delay w1)
          else match http_error r with
               | Some msg => except (HTTPError msg) (Some r) w1
               | None => (Leave (Some r), w1)
               end
      | (Fails e, w1) =>
          if is_RequestException e then except e resp w1 else (Throw e, w1)
      end
  end.

(** [all(keyword in name_keywords for keyword in identifier_keywords)] *)
Definition all_keywords_in (identifier_keywords name_keywords : list string)
  : bool :=
  forallb (fun keyword => existsb (String.eqb keyword) name_keywords)
    identifier_keywords.

(** The loop over the candidates of a name search: [matched_attractions]
    grows by the candidates whose name holds every keyword. *)
Fixpoint match_attractions (identifier_keywords : list string)
    (candidates : list pyval) : result (list attraction_row) :=
  match candidates with
  | [] => Ok []
  | attraction :: rest =>
      name <- py_item attraction "name" ;;
      attraction_name_keywords <- py_lower_split name ;;
      if all_keywords_in identifier_keywords attraction_name_keywords
      then row <- extract_attraction_info attraction ;;
           rows <- match_attractions identifier_keywords rest ;;
           Ok (row :: rows)
      else match_attractions identifier_keywords rest
  end.

(** The part of [find_attraction_info] after the retry loop, for a decoded
    body [data]. *)
Definition process_attractions (identifier identifier_type : string)
    (data : pyval) : result (envelope attraction_row) :=
  if String.eqb identifier_type "name" then
    has <- py_in "_embedded" data ;;
    has' <- (if has then (e <- py_item data "_embedded" ;; py_in "attractions" e)
             else Ok false) ;;
    if has' then
      e <- py_item data "_embedded" ;;
      attractions <- py_item e "attractions" ;;
      candidates <- py_iter attractions ;;
      matched <- match_attractions (split (lower identifier)) candidates ;;
      match matched with
      | [] => Ok ([], Some no_match_name)
      | _ => Ok (matched, None)
      end
    else Ok ([], Some no_match)
  else
    has <- py_in "name" data ;;
    has' <- (if has then py_in "id" data else Ok false) ;;
    if has' then
      row <- extract_attraction_info data ;;
      Ok ([row], None)
    else Ok ([], Some no_match_id).

(** The function under the [lru_cache] decorator. *)
Definition find_attraction_info_body (identifier identifier_type api_key : string)
    (w : world) : result (envelope attraction_row) * world :=
  if negb (String.eqb identifier_type "name" || String.eqb identifier_type "id")
  then (Raise invalid_type, w)
  else if String.eqb identifier EmptyString
  then (Ok ([], Some empty_identifier), w)
  else
    match find_loop (find_link identifier identifier_type api_key)
            (range 5) 1 None w with
    | (Return r, w') => (Ok r, w')
    | (Throw e, w') => (Raise e, w')
    | (Leave None, w') => (Raise UnboundLocalError, w')
    | (Leave (Some r), w') =>
        if negb (status_code r =? 200)
        then (Ok ([], Some [Lit "Error fetching data: Status code ";
                            Int (status_code r)]), w')
        else (data <- json r ;; process_attractions identifier identifier_type data,
              w')
    end.

(** [functools.lru_cache(maxsize=100)]: the entries, most recently used
    first.  A hit moves its entry to the front; a miss that returns stores
    the result and drops the least recently used entry beyond the capacity;
    a call that raises stores nothing. *)
Definition cache_key : Type := (string * string * string)%type.

Definition cache : Type := list (cache_key * envelope attraction_row).

Definition maxsize : nat := 100.

Definition key_eqb (k k' : cache_key) : bool :=
  match k, k' with
  | (a, b, c), (a', b', c') => String.eqb a a' && String.eqb b b' && String.eqb c c'
  end.

Fixpoint cache_lookup (k : cache_key) (c : cache)
  : option (envelope attraction_row) :=
  match c with
  | [] => None
  | (k', r) :: c' => if key_eqb k k' then Some r else cache_lookup k c'
  end.

Definition cache_remove (k : cache_key) (c : cache) : cache :=
  filter (fun entry => negb (key_eqb k (fst entry))) c.

Definition find_attraction_info (identifier identifier_type api_key : string)
    (c : cache) (w : world)
  : result (envelope attraction_row) * cache * world :=
  let key := (identifier, identifier_type, api_key) in
  match cache_lookup key c with
  | Some r => (Ok r, (key, r) :: cache_remove key c, w)
  | None =>
      match find_attraction_info_body identifier identifier_type api_key w with
      | (Ok r, w') => (Ok r, firstn maxsize ((key, r) :: c), w')
      | (Raise e, w') => (Raise e, c, w')
      end
  end.

Definition events_url (attraction_id api_key : string) : string :=
  "https://app.ticketmaster.com/discovery/v2/events.json?apikey="
    ++ api_key ++ "&attractionId=" ++ attraction_id.

Definition no_events : message := [Lit "No events found for this performer."].

(** The statements of [get_performer_events_1] that follow the rate limit
    check, inside the [try]. *)
Definition process_events (r : response) : result (envelope event_row) :=
  _ <- (match http_error r with
        | Some msg => Raise (HTTPError msg)
        | None => Ok tt
        end) ;;
  data <- json r ;;
  events_data <- get2 data "_embedded" "events" (VList []) ;;
  if negb (truthy events_data) then Ok ([], Some no_events)
  else
    events <- py_iter events_data ;;
    events_info <- mapM extract_event_info events ;;
    Ok (events_info, None).

(** The two [except] clauses of [get_performer_events_1]. *)
Definition events_except (e : exn) : envelope event_row :=
  if is_HTTPError e
  then ([], Some [Lit "HTTP error occurred: "; Exc e])
  else ([], Some [Lit "Other error occurred: "; Exc e]).

Fixpoint events_loop (link : string) (max_retries : Z) (attempts : list Z)
    (retry_delay : Z) (w : world) : envelope event_row * world :=
  match attempts with
  | [] => (([], Some [Lit "Failed to fetch events after retries"]), w)
  | attempt :: rest =>
      match send (mkRequest link []) w with
      | (Responds r, w1) =>
          if status_code r =? 429 then
            if attempt <? max_retries - 1
            then events_loop link max_retries rest (retry_delay * 2)
                   (sleep retry_delay w1)
            else (([], Some [Lit "Rate limit exceeded, try again later."]), w1)
          else
            match process_events r with
            | Ok res => (res, w1)
            | Raise e => (events_except e, w1)
            end
      | (Fails e, w1) => (events_except e, w1)
      end
  end.

Definition get_performer_events_1 (attraction_id api_key : string)
    (max_retries : Z) (w : world) : result (envelope event_row) * world :=
  let (res, w') := events_loop (events_url attraction_id api_key) max_retries
                     (range max_retries) 1 w in
  (Ok res, w').

Definition base_url : string :=
  "https://app.ticketmaster.com/discovery/v2/events.json".

Definition filter_params (api_key : string)
    (start_date end_date city state_code country_code : option string)
  : list (string * option string) :=
  [("apikey", Some api_key); ("startDateTime", start_date);
   ("endDateTime", end_date); ("city", city); ("stateCode", state_code);
   ("countryCode", country_code)].

(** [response and response.status_code == 429] *)
Definition rate_limited (resp : option response) : bool :=
  match resp with
  | None => false
  | Some r => is_true r && (status_code r =? 429)
  end.

(** The retry loop of [fetch_filtered_events], [max_retries] being 5. *)
Fixpoint filtered_loop (req : request) (attempts : list Z) (retry_delay : Z)
    (resp : option response) (w : world)
  : loop_exit filtered_row * world :=
  match attempts with
  | [] => (Leave resp, w)
  | attempt :: rest =>
      let except (e : exn) (resp' : option response) (w' : world) :=
        if is_HTTPError e then
          if rate_limited resp'
          then filtered_loop req rest (retry_delay * 2) resp' (sleep retry_delay w')
          else (Return ([], Some [Lit "HTTP error occurred: "; Exc e]), w')
        else if is_RequestException e then
          if attempt =? 5 - 1
          then (Return ([], Some [Lit "Failed to fetch data after "; Int 5;
                                  Lit " attempts. Error: "; Exc e]), w')
          else filtered_loop req rest (retry_delay * 2) resp' (sleep retry_delay w')
        else (Throw e, w') in
      match send req w with
      | (Responds r, w1) =>
          match http_error r with
          | Some msg => except (HTTPError msg) (Some r) w1
          | None => (Leave (Some r), w1)
          end
      | (Fails e, w1) => except e resp w1
      end
  end.

Definition no_response : message :=
  [Lit "No successful response received from the API."].
Definition no_events_criteria : message :=
  [Lit "No events found for the given criteria."].

Definition process_filtered (r : response) : result (envelope filtered_row) :=
  data <- json r ;;
  events_data <- get2 data "_embedded" "events" (VList []) ;;
  if negb (truthy events_data) then Ok ([], Some no_events_criteria)
  else
    events <- py_iter events_data ;;
    events_info <- mapM filtered_event_info events ;;
    Ok (events_info, None).

Definition fetch_filtered_events (api_key : string)
    (start_date end_date city state_code country_code : option string)
    (w : world) : result (envelope filtered_row) * world :=
  let req := mkRequest base_url
               (filter_params api_key start_date end_date city state_code
                  country_code) in
  match filtered_loop req (range 5) 1 None w with
  | (Return r, w') => (Ok r, w')
  | (Throw e, w') => (Raise e, w')
  | (Leave None, w') => (Ok ([], Some no_response), w')
  | (Leave (Some r), w') =>
      if negb (status_code r =? 200) then (Ok ([], Some no_response), w')
      else (process_filtered r, w')
  end.

End Operations.

(** ** Notions used to state the properties *)

(** The caches a process can hold: the empty one, and what a call leaves. *)
Inductive reachable (env : network) : cache -> Prop :=
| reach_empty : reachable env []
| reach_call : forall identifier identifier_type api_key c w r c' w',
    reachable env c ->
    find_attraction_info env identifier identifier_type api_key c w = (r, c', w') ->
    reachable env c'.

(** Every stored envelope was returned by the function for its key. *)
Definition cache_sound (env : network) (c : cache) : Prop :=
  forall identifier identifier_type api_key r,
    In ((identifier, identifier_type, api_key), r) c ->
    exists w w',
      find_attraction_info_body env identifier identifier_type api_key w
        = (Ok r, w').

(** The error is null exactly when the table has a row. *)
Definition well_paired {R : Type} (r : envelope R) : Prop :=
  snd r = None <-> fst r <> [].

(** The name of a candidate of a name search. *)
Definition candidate_name (attraction : pyval) : option string :=
  match attraction with
  | VDict d => match lookup "name" d with
               | Some (VStr s) => Some s
               | _ => None
               end
  | _ => None
  end.

(** Every word of the query is one of the words of the name. *)
Definition token_match (identifier name : string) : Prop :=
  forall t, In t (split (lower identifier)) -> In t (split (lower name)).

Definition keeps (identifier : string) (attraction : pyval) : Prop :=
  exists name, candidate_name attraction = Some name /\ token_match identifier name.

(** [selects P l kept]: [kept] is [l] without the elements that fail [P],
    in the same order. *)
Inductive selects {A : Type} (P : A -> Prop) : list A -> list A -> Prop :=
| selects_nil : selects P [] []
| selects_keep : forall x l kept,
    P x -> selects P l kept -> selects P (x :: l) (x :: kept)
| selects_drop : forall x l kept,
    ~ P x -> selects P l kept -> selects P (x :: l) kept.

(** A key that is missing or holds an object. *)
Definition absent_or_dict (o : option pyval) : bool :=
  match o with
  | None | Some (VDict _) => true
  | _ => false
  end.

(** A candidate the name search can flatten: an object whose [name] is a
    string and whose [upcomingEvents], when present, is an object. *)
Definition flattenable (attraction : pyval) : Prop :=
  exists d name,
    attraction = VDict d /\ lookup "name" d = Some (VStr name) /\
    absent_or_dict (lookup "upcomingEvents" d) = true.

(** A candidate with a name that lacks a word of the query. *)
Definition rejects (identifier : string) (attraction : pyval) : Prop :=
  exists name,
    candidate_name attraction = Some name /\ ~ token_match identifier name.

(** The next request [req] is answered with status 200 and the decoded
    body [data]. *)
Definition answers_200 (env : network) (req : request) (w : world)
    (data : pyval) : Prop :=
  exists r,
    env (length (sent w)) req = Responds r /\
    status_code r = 200 /\ http_error r = None /\ body r = Some data.

Definition succeeds {A : Type} (r : result A) : Prop := exists a, r = Ok a.

(** [prices.get(k)] *)
Definition price (prices : list (string * pyval)) (k : string) : pyval :=
  match lookup k prices with
  | Some v => v
  | None => VNone
  end.

Definition or_none (o : option pyval) : pyval :=
  match o with
  | Some v => v
  | None => VNone
  end.

(** *** The shape of an event that [extract_event_info] flattens

    A key on an extraction path is either absent or holds what the path
    expects: an object for [_embedded], [dates], [start], [sales],
    [public], [city] and [country]; a list that starts with an object for
    [venues], [presale] and [priceRanges]; prices that can be averaged
    when both are true. *)

(** The value under [k] of an object that may be absent. *)
Definition sub (o : option pyval) (k : string) : option pyval :=
  match o with
  | Some (VDict d) => lookup k d
  | _ => None
  end.

Definition absent_or_first_dict (o : option pyval) : bool :=
  match o with
  | None | Some (VList (VDict _ :: _)) => true
  | _ => false
  end.

(** The rational a finite float stands for. *)
Definition float_value (f : spec_float) : option Q :=
  match f with
  | S754_zero _ => Some 0%Q
  | S754_finite s m e =>
      Some (inject_Z (if s then Z.neg m else Z.pos m) * Qpower 2 e)%Q
  | _ => None
  end.

(** [in_float_range m e]: the float nearest to [m * 2^e] is finite. *)
Definition in_float_range (m e : Z) : bool :=
  match binary_normalize prec emax m e false with
  | S754_infinity _ => false
  | _ => true
  end.

(** Two prices can be averaged when both are numbers and the integer that
    is turned into a float on the way is within the range of a float: the
    integer that meets a float, or the sum of two integers, halved. *)
Definition averageable (a b : pyval) : bool :=
  match as_number a, as_number b with
  | Some (NInt x), Some (NInt y) => in_float_range (x + y) (-1)
  | Some (NInt x), Some (NFloat _) => in_float_range x 0
  | Some (NFloat _), Some (NInt y) => in_float_range y 0
  | Some (NFloat _), Some (NFloat _) => true
  | _, _ => false
  end.

Definition prices_shape (d : list (string * pyval)) : bool :=
  match lookup "priceRanges" d with
  | None => true
  | Some (VList (VDict p :: _)) =>
      if truthy (price p "min") && truthy (price p "max")
      then averageable (price p "min") (price p "max")
      else true
  | _ => false
  end.

Definition venues_shape (d : list (string * pyval)) : bool :=
  absent_or_dict (lookup "_embedded" d) &&
  match sub (lookup "_embedded" d) "venues" with
  | None => true
  | Some (VList (VDict v :: _)) =>
      absent_or_dict (lookup "city" v) && absent_or_dict (lookup "country" v)
  | _ => false
  end.

Definition dates_shape (d : list (string * pyval)) : bool :=
  absent_or_dict (lookup "dates" d) &&
  absent_or_dict (sub (lookup "dates" d) "start").

Definition sales_shape (d : list (string * pyval)) : bool :=
  absent_or_dict (lookup "sales" d) &&
  absent_or_dict (sub (lookup "sales" d) "public") &&
  absent_or_first_dict (sub (lookup "sales" d) "presale").

Definition well_shaped (event : pyval) : bool :=
  match event with
  | VDict d => prices_shape d && venues_shape d && dates_shape d && sales_shape d
  | _ => false
  end.

(** [no_space s]: no character of [s] is white space. *)
Fixpoint no_space (s : string) : bool :=
  match s with
  | EmptyString => true
  | String c s' => negb (is_space c) && no_space s'
  end.

(** ** Case and words, stated without the functions of the code *)

Definition upper_case : string := "ABCDEFGHIJKLMNOPQRSTUVWXYZ".
Definition lower_case : string := "abcdefghijklmnopqrstuvwxyz".

(** The white space of ASCII: tab, line feed, vertical tab, form feed,
    carriage return, the separators 28 to 31 and the space. *)
Definition white_space : list ascii :=
  ["009"; "010"; "011"; "012"; "013"; "028"; "029"; "030"; "031"; " "]%char.

Definition is_white (c : ascii) : Prop := In c white_space.

(** [translate from to c]: the character of [to] at the place [c] has in
    [from]; [c] itself when it is not in [from]. *)
Fixpoint translate (from to : string) (c : ascii) : ascii :=
  match from, to with
  | String a from', String b to' =>
      if Ascii.eqb c a then b else translate from' to' c
  | _, _ => c
  end.

(** The lower-case form of a character: each of the 26 upper-case letters
    goes to its lower-case letter, every other character is kept. *)
Definition lower_letter (c : ascii) : ascii := translate upper_case lower_case c.

Fixpoint lower_cased (s : string) : string :=
  match s with
  | EmptyString => EmptyString
  | String c s' => String (lower_letter c) (lower_cased s')
  end.

Fixpoint every (P : ascii -> Prop) (s : string) : Prop :=
  match s with
  | EmptyString => True
  | String c s' => P c /\ every P s'
  end.

(** What follows a word: the end of the text or a white space. *)
Definition ends_word (rest : string) : Prop :=
  match rest with
  | EmptyString => True
  | String c _ => is_white c
  end.

(** [words s ws]: [ws] are the words of [s] from left to right, a word
    being a non-empty run of characters that are not white space, with
    white space or an end of the text on either side. *)
Inductive words : string -> list string -> Prop :=
| words_none : forall s, every is_white s -> words s []
| words_next : forall pre w rest ws,
    every is_white pre ->
    w <> EmptyString -> every (fun c => ~ is_white c) w ->
    ends_word rest ->
    words rest ws ->
    words (pre ++ w ++ rest) (w :: ws).

(** Every word of the lower-cased query is a word of the lower-cased
    name. *)
Definition word_match (identifier name : string) : Prop :=
  exists qs ns,
    words (lower_cased identifier) qs /\ words (lower_cased name) ns /\
    incl qs ns.

Definition keeps_words (identifier : string) (attraction : pyval) : Prop :=
  exists name,
    candidate_name attraction = Some name /\ word_match identifier name.

(** An upper-case letter and its lower-case letter. *)
Definition case_pair (a b : ascii) : Prop :=
  In (a, b) (combine (list_ascii_of_string upper_case)
                     (list_ascii_of_string lower_case)).

(** Two texts that differ in the case of their letters only. *)
Inductive same_but_case : string -> string -> Prop :=
| same_end : same_but_case EmptyString EmptyString
| same_char : forall c s t,
    same_but_case s t -> same_but_case (String c s) (String c t)
| same_upper : forall a b s t,
    case_pair a b -> same_but_case s t ->
    same_but_case (String a s) (String b t)
| same_lower : forall a b s t,
    case_pair a b -> same_but_case s t ->
    same_but_case (String b s) (String a t).

(** ** Concrete payloads, replies and networks *)

Definition attractions_payload (cands : list pyval) : pyval :=
  VDict [("_embedded", VDict [("attractions", VList cands)])].

Definition events_payload (events : list pyval) : pyval :=
  VDict [("_embedded", VDict [("events", VList events)])].

Definition named (name id : string) : pyval :=
  VDict [("name", VStr name); ("id", VStr id)].

Definition named_row (name id : string) : attraction_row :=
  mkAttraction (VStr name) (VStr id) (VInt 0) (VInt 0).

Definition priced_event : pyval :=
  VDict [("priceRanges", VList [VDict [("min", VInt 50); ("max", VInt 150)]])].

(** The name "Taylor", a tab, a line feed, "Swift". *)
Definition tabbed_name : string :=
  "Taylor" ++ String "009" (String "010" "Swift").

(** The floats [100.0], [0.1], [0.2] and [0.15000000000000002]. *)
Definition one_hundred : spec_float := S754_finite false 7036874417766400 (-46).
Definition a_tenth : spec_float := S754_finite false 7205759403792794 (-56).
Definition a_fifth : spec_float := S754_finite false 7205759403792794 (-55).
Definition rounded_average : spec_float :=
  S754_finite false 5404319552844596 (-55).

Definition cents_event : pyval :=
  VDict [("priceRanges",
          VList [VDict [("min", VFloat a_tenth); ("max", VFloat a_fifth)]])].

Definition huge_event : pyval :=
  VDict [("priceRanges",
          VList [VDict [("min", VInt (10 ^ 400)); ("max", VInt (10 ^ 400))]])].

(** The row of the event [{}]. *)
Definition blank_event_row : event_row :=
  mkEvent VNone VNone VNone VNone VNone (VStr "N/A") VNone VNone
    VNone VNone VNone VNone VNone VNone VNone.

Definition blank_filtered_row : filtered_row :=
  mkFiltered VNone VNone VNone VNone VNone VNone VNone VNone VNone VNone
    VNone VNone.

Definition too_many_requests : response :=
  http_response 429 "429 Client Error: Too Many Requests" None.

Definition ok_response (data : pyval) : response :=
  http_response 200 "OK" (Some data).

(** The network that gives the replies of [first] in turn and [then_on]
    ever after. *)
Definition replies (first : list reply) (then_on : reply) : network :=
  fun n _ => nth n first then_on.

Definition limited_then (r : response) : network :=
  replies [Responds too_many_requests] (Responds r).

Definition always (r : response) : network := replies [] (Responds r).

Definition find_request (identifier identifier_type api_key : string) : request :=
  mkRequest (find_link identifier identifier_type api_key) [].

Definition events_request (attraction_id api_key : string) : request :=
  mkRequest (events_url attraction_id api_key) [].

Definition filter_request (api_key : string) : request :=
  mkRequest base_url (filter_params api_key None None None None None).

(** ** Notions for the further properties *)

(** The delays of [k] rounds of back-off that start at [d], newest first:
    each round doubles the delay. *)
Fixpoint backoff (d : Z) (k : nat) : list Z :=
  match k with
  | O => []
  | S k' => (backoff (d * 2) k' ++ [d])%list
  end.

(** What a call added to the world: [n] times the request [req], and the
    first [k] delays of the back-off that starts at [d]. *)
Definition added (req : request) (d : Z) (n k : nat) (w w' : world) : Prop :=
  sent w' = (repeat req n ++ sent w)%list /\
  slept w' = (backoff d k ++ slept w)%list.

(** The reply to the request sent [i] requests after the world [w]. *)
Definition reply_at (env : network) (w : world) (i : nat) (req : request)
  : reply :=
  env (length (sent w) + i)%nat req.

(** The exception [find_attraction_info] catches on a reply, if any:
    [raise_for_status()] on a status other than 429, or a
    [RequestException] of [requests.get]. *)
Definition find_failure (rep : reply) : option exn :=
  match rep with
  | Responds r =>
      if status_code r =? 429 then None
      else match http_error r with
           | Some msg => Some (HTTPError msg)
           | None => None
           end
  | Fails e => if is_RequestException e then Some e else None
  end.

(** A reply after which [find_attraction_info] tries again. *)
Definition find_retries (rep : reply) : bool :=
  match rep with
  | Responds r => status_code r =? 429
  | Fails _ => false
  end
  || match find_failure rep with Some _ => true | None => false end.

Definition is_429 (rep : reply) : bool :=
  match rep with
  | Responds r => status_code r =? 429
  | Fails _ => false
  end.

(** What [get_performer_events_1] returns on a reply that is no 429: the
    envelope of the flattening, or the envelope of the exception caught. *)
Definition events_outcome (rep : reply) : envelope event_row :=
  match rep with
  | Fails e => events_except e
  | Responds r =>
      match process_events r with
      | Ok res => res
      | Raise e => events_except e
      end
  end.

(** A [RequestException] of [requests.get] that is no [HTTPError]: the
    failure after which [fetch_filtered_events] tries again. *)
Definition connection_failure (rep : reply) : bool :=
  match rep with
  | Fails e => is_RequestException e && negb (is_HTTPError e)
  | Responds _ => false
  end.

(** The first venue of an event whose venue list starts with an object;
    the empty object stands for a missing list, as in the code. *)
Definition first_venue (d : list (string * pyval)) : list (string * pyval) :=
  match sub (lookup "_embedded" d) "venues" with
  | Some (VList (VDict v :: _)) => v
  | _ => []
  end.

(** The events that the loop of [fetch_filtered_events] flattens: every
    key on a path is absent or holds what the path expects. *)
Definition filtered_shape (event : pyval) : bool :=
  match event with
  | VDict d =>
      absent_or_dict (lookup "_embedded" d) &&
      absent_or_first_dict (sub (lookup "_embedded" d) "venues") &&
      absent_or_dict (lookup "city" (first_venue d)) &&
      absent_or_dict (lookup "state" (first_venue d)) &&
      absent_or_dict (lookup "country" (first_venue d)) &&
      absent_or_dict (lookup "dates" d) &&
      absent_or_dict (sub (lookup "dates" d) "start") &&
      absent_or_dict (sub (lookup "dates" d) "end") &&
      absent_or_dict (lookup "sales" d) &&
      absent_or_dict (sub (lookup "sales" d) "public")
  | _ => false
  end.

(** [d.get(k, default)] on the keys of an object. *)
Definition get_or (d : list (string * pyval)) (k : string) (default : pyval)
  : pyval :=
  match lookup k d with
  | Some v => v
  | None => default
  end.

(** The exceptions of the operations on values. *)
Definition builtin (e : exn) : bool :=
  match e with
  | KeyError | IndexError | TypeError | AttributeError => true
  | _ => false
  end.

(** The row of an event of the right shape, field by field. *)
Definition filtered_row_of (d : list (string * pyval)) : filtered_row :=
  mkFiltered
    (or_none (lookup "id" d))
    (or_none (lookup "id" (first_venue d)))
    (or_none (sub (sub (lookup "dates" d) "start") "dateTime"))
    (or_none (sub (sub (lookup "dates" d) "end") "dateTime"))
    (or_none (sub (lookup "city" (first_venue d)) "name"))
    (or_none (sub (lookup "state" (first_venue d)) "stateCode"))
    (or_none (sub (lookup "country" (first_venue d)) "countryCode"))
    (or_none (sub (sub (lookup "sales" d) "public") "startDateTime"))
    (or_none (sub (sub (lookup "sales" d) "public") "endDateTime"))
    (or_none (sub (sub (lookup "dates" d) "start") "localDate"))
    (or_none (sub (sub (lookup "dates" d) "end") "localDate"))
    (or_none (sub (lookup "dates" d) "timezone")).

(** A computation that raises nothing but the exceptions of the operations
    on values. *)
Definition safe {A : Type} (r : result A) : Prop :=
  forall e, r = Raise e -> builtin e = true.



(** The value of [data.get('_embedded', {}).get('events', [])] on an
    object [d] whose [_embedded], when present, is an object. *)
Definition events_of (d : list (string * pyval)) : pyval :=
  match sub (lookup "_embedded" d) "events" with
  | Some v => v
  | None => VList []
  end.

(** A run of calls of [find_attraction_info], one per key, each starting
    from the cache and the world the one before it left. *)
Fixpoint run_calls (env : network) (keys : list cache_key) (c : cache)
    (w : world) : cache * world :=
  match keys with
  | [] => (c, w)
  | (identifier, identifier_type, api_key) :: keys' =>
      match find_attraction_info env identifier identifier_type api_key c w with
      | (_, c', w') => run_calls env keys' c' w'
      end
  end.

(** [blank s]: every character of [s] is white space. *)
Fixpoint blank (s : string) : bool :=
  match s with
  | EmptyString => true
  | String c s' => is_space c && blank s'
  end.

(** ** Further concrete replies and networks *)

Definition server_error : response :=
  http_response 500 "500 Server Error: Internal Server Error for url" None.

Definition connection_down : reply := Fails (ConnectionError "connection refused").

Definition test_payload : pyval :=
  attractions_payload [named "Test Attraction" "123"].

Definition test_key : cache_key := ("Test Attraction", "name", "dummy_api_key").

Definition test_envelope : envelope attraction_row :=
  ([named_row "Test Attraction" "123"], None).

(** * Properties *)

(** ** The result monad *)

Lemma bind_Ok {A B} (r : result A) (k : A -> result B) b :
  bind r k = Ok b -> exists a, r = Ok a /\ k a = Ok b.
Proof. destruct r; simpl; [eauto | discriminate]. Qed.

Tactic Notation "bind_inv" hyp(H) "as" ident(x) ident(Hx) :=
  apply bind_Ok in H; destruct H as (x & Hx & H).

Lemma mapM_length {A B} (f : A -> result B) l rows :
  mapM f l = Ok rows -> length rows = length l.
Proof.
  revert rows; induction l as [|a l IH]; simpl; intros rows H.
  - now inversion H.
  - bind_inv H as y Hy. bind_inv H as ys Hys. inversion H; subst.
    simpl. f_equal. auto.
Qed.

Lemma py_get_dict d k default :
  py_get (VDict d) k default
    = Ok (match lookup k d with Some x => x | None => default end).
Proof. reflexivity. Qed.

(** ** The memoisation of [find_attraction_info] *)

Lemma key_eqb_refl k : key_eqb k k = true.
Proof. destruct k as [[a b] c]; simpl. now rewrite !String.eqb_refl. Qed.

Lemma key_eqb_eq k k' : key_eqb k k' = true -> k = k'.
Proof.
  destruct k as [[a b] c], k' as [[a' b'] c']; simpl.
  rewrite !andb_true_iff, !String.eqb_eq. intros [[-> ->] ->]. reflexivity.
Qed.

Lemma cache_lookup_head k r c : cache_lookup k ((k, r) :: c) = Some r.
Proof. cbn [cache_lookup]. now rewrite key_eqb_refl. Qed.

Lemma cache_lookup_In k c r : cache_lookup k c = Some r -> In (k, r) c.
Proof.
  induction c as [|[k' r'] c IH]; simpl; [discriminate|].
  destruct (key_eqb k k') eqn:E.
  - intros [= ->]. apply key_eqb_eq in E. subst. now left.
  - intros H. right. auto.
Qed.

Lemma In_firstn {A} (x : A) n l : In x (firstn n l) -> In x l.
Proof.
  revert l; induction n as [|n IH]; intros [|y l]; simpl; try tauto.
  intros [->|H]; auto.
Qed.

(** A call keeps the cache sound: a hit reorders the entries, a miss adds
    what the function returned. *)
Lemma cache_sound_step env i t k c w r c' w' :
  cache_sound env c ->
  find_attraction_info env i t k c w = (r, c', w') ->
  cache_sound env c'.
Proof.
  unfold find_attraction_info. intros Hs.
  destruct (cache_lookup (i, t, k) c) as [r0|] eqn:L.
  - intros [= <- <- <-]. intros i' t' k' r' [E|Hin].
    + inversion E; subst. apply cache_lookup_In in L. eauto.
    + unfold cache_remove in Hin. apply filter_In in Hin. destruct Hin. eauto.
  - destruct (find_attraction_info_body env i t k w) as [[r0|e] w0] eqn:B.
    + remember (firstn maxsize ((i, t, k, r0) :: c)) as c1 eqn:Ec1.
      intros [= <- <- <-]. intros i' t' k' r' Hin. subst c1.
      apply In_firstn in Hin. destruct Hin as [E|Hin].
      * inversion E; subst. eauto.
      * eauto.
    + intros [= <- <- <-]. exact Hs.
Qed.

Lemma reachable_sound env c : reachable env c -> cache_sound env c.
Proof.
  induction 1.
  - intros ? ? ? ? [].
  - eapply cache_sound_step; eauto.
Qed.

Lemma cache_lookup_sound env c i t k r :
  cache_sound env c -> cache_lookup (i, t, k) c = Some r ->
  exists w w', find_attraction_info_body env i t k w = (Ok r, w').
Proof.
  intros Hs L. apply cache_lookup_In in L. eauto.
Qed.

Lemma invalid_type_raises env i t k w :
  t <> "name" -> t <> "id" ->
  find_attraction_info_body env i t k w = (Raise invalid_type, w).
Proof.
  intros Hn Hi. unfold find_attraction_info_body.
  apply String.eqb_neq in Hn, Hi. now rewrite Hn, Hi.
Qed.

Lemma empty_identifier_returns env t k w :
  t = "name" \/ t = "id" ->
  find_attraction_info_body env "" t k w = (Ok ([], Some empty_identifier), w).
Proof.
  intros [-> | ->]; reflexivity.
Qed.

(** C7.  Whatever the identifier and the key, a call of
    [find_attraction_info] whose [identifier_type] is neither [name] nor
    [id] raises [ValueError]; the world is the one before the call, so no
    request was sent, and the cache is untouched. *)
Theorem invalid_identifier_type_fails_fast :
  forall env identifier identifier_type api_key c w,
    reachable env c ->
    identifier_type <> "name" -> identifier_type <> "id" ->
    find_attraction_info env identifier identifier_type api_key c w
      = (Raise invalid_type, c, w).
Proof.
  intros env i t k c w Hr Hn Hi. unfold find_attraction_info.
  destruct (cache_lookup (i, t, k) c) as [r|] eqn:L.
  - destruct (cache_lookup_sound _ _ _ _ _ _ (reachable_sound _ _ Hr) L)
      as (w0 & w1 & B).
    rewrite invalid_type_raises in B by assumption. discriminate.
  - now rewrite invalid_type_raises.
Qed.

(** C7 at the call of the test suite. *)
Lemma invalid_identifier_type_fails_fast_witness :
  find_attraction_info (always (ok_response VNone))
    "Test Attraction" "invalid_type" "dummy_api_key" [] fresh
    = (Raise invalid_type, [], fresh).
Proof.
  apply (invalid_identifier_type_fails_fast (always (ok_response VNone))
           "Test Attraction" "invalid_type" "dummy_api_key" [] fresh).
  - apply reach_empty.
  - discriminate.
  - discriminate.
Defined.

(** C8.  With a valid [identifier_type] and any key, the empty identifier
    is answered by the envelope (empty table, "Identifier cannot be
    empty."): the call returns, it does not raise, and the world is the one
    before the call, so no request was sent. *)
Theorem empty_identifier_is_an_envelope :
  forall env identifier_type api_key c w,
    reachable env c ->
    identifier_type = "name" \/ identifier_type = "id" ->
    exists c',
      find_attraction_info env "" identifier_type api_key c w
        = (Ok ([], Some empty_identifier), c', w).
Proof.
  intros env t k c w Hr Ht. unfold find_attraction_info.
  destruct (cache_lookup ("", t, k) c) as [r|] eqn:L.
  - destruct (cache_lookup_sound _ _ _ _ _ _ (reachable_sound _ _ Hr) L)
      as (w0 & w1 & B).
    rewrite empty_identifier_returns in B by assumption.
    injection B as <- _. eauto.
  - rewrite empty_identifier_returns by assumption. eauto.
Qed.

(** C8 at the call of the test suite. *)
Lemma empty_identifier_is_an_envelope_witness :
  exists c',
    find_attraction_info (always (ok_response VNone)) "" "name" "dummy_api_key"
      [] fresh
      = (Ok ([], Some empty_identifier), c', fresh).
Proof.
  apply (empty_identifier_is_an_envelope (always (ok_response VNone))
           "name" "dummy_api_key" [] fresh).
  - apply reach_empty.
  - left. reflexivity.
Defined.

(** C9.  When a call of [find_attraction_info] returns an envelope, the
    next call with the same identifier, type and key returns the same
    envelope, and its world is the one it started in: no request is sent.
    A succeeding first call is the case of an envelope with a null
    error. *)
Theorem repeated_call_is_served_from_the_cache :
  forall env identifier identifier_type api_key c w r c' w',
    find_attraction_info env identifier identifier_type api_key c w
      = (Ok r, c', w') ->
    exists c'',
      find_attraction_info env identifier identifier_type api_key c' w'
        = (Ok r, c'', w').
Proof.
  intros env i t k c w r c' w'. unfold find_attraction_info.
  destruct (cache_lookup (i, t, k) c) as [r0|] eqn:L.
  - intros [= <- <- <-]. rewrite cache_lookup_head. eauto.
  - destruct (find_attraction_info_body env i t k w) as [[r0|e] w0] eqn:B;
      [|discriminate].
    change (firstn maxsize ((i, t, k, r0) :: c))
      with ((i, t, k, r0) :: firstn (pred maxsize) c).
    remember (firstn (pred maxsize) c) as c1.
    intros [= <- <- <-]. rewrite cache_lookup_head. eauto.
Qed.

(** C9 on the successful name search of the test suite. *)
Lemma repeated_call_is_served_from_the_cache_witness :
  let env := always (ok_response (attractions_payload [named "Test Attraction" "123"])) in
  let r := ([named_row "Test Attraction" "123"], None) in
  let w' := mkWorld [find_request "Test Attraction" "name" "dummy_api_key"] [] in
  exists c'',
    find_attraction_info env "Test Attraction" "name" "dummy_api_key"
      [(("Test Attraction", "name", "dummy_api_key"), r)] w'
      = (Ok r, c'', w').
Proof.
  intros env r w'.
  apply (repeated_call_is_served_from_the_cache env
           "Test Attraction" "name" "dummy_api_key" [] fresh r).
  reflexivity.
Defined.

(** ** The envelope invariant *)

Lemma truthy_iter_nonempty v l :
  truthy v = true -> py_iter v = Ok l -> l <> [].
Proof.
  destruct v as [| | | |s|l0|d]; simpl; try discriminate.
  - destruct s; simpl; [discriminate|]. intros _ [= <-]. discriminate.
  - destruct l0; [discriminate|]. intros _ [= <-]. discriminate.
  - destruct d; [discriminate|]. intros _ [= <-]. discriminate.
Qed.

Lemma error_well_paired {R} (m : message) : well_paired (@nil R, Some m).
Proof. unfold well_paired; simpl. split; [discriminate | congruence]. Qed.

(** The rows of a true [events_data]: one per element, so at least one. *)
Lemma flattened_well_paired {R} (f : pyval -> result R) v r :
  truthy v = true ->
  (events <- py_iter v ;; rows <- mapM f events ;; Ok (rows, @None message))
    = Ok r ->
  well_paired r.
Proof.
  intros Ht H. bind_inv H as events He. bind_inv H as rows Hrows.
  inversion H; subst.
  pose proof (truthy_iter_nonempty _ _ Ht He) as Hne.
  apply mapM_length in Hrows.
  unfold well_paired; simpl. split; [intros _|reflexivity].
  destruct rows; [|discriminate]. destruct events; [congruence|discriminate].
Qed.

Lemma process_events_well_paired r res :
  process_events r = Ok res -> well_paired res.
Proof.
  unfold process_events. intros H.
  bind_inv H as u Hu. bind_inv H as data Hd. bind_inv H as events_data He.
  destruct (truthy events_data) eqn:T; simpl in H.
  - eapply flattened_well_paired; eauto.
  - inversion H. apply error_well_paired.
Qed.

Lemma process_filtered_well_paired r res :
  process_filtered r = Ok res -> well_paired res.
Proof.
  unfold process_filtered. intros H.
  bind_inv H as data Hd. bind_inv H as events_data He.
  destruct (truthy events_data) eqn:T; simpl in H.
  - eapply flattened_well_paired; eauto.
  - inversion H. apply error_well_paired.
Qed.

Lemma events_except_well_paired e : well_paired (events_except e).
Proof. unfold events_except. destruct (is_HTTPError e); apply error_well_paired. Qed.

Lemma events_loop_well_paired env link m attempts d w res w' :
  events_loop env link m attempts d w = (res, w') -> well_paired res.
Proof.
  revert d w. induction attempts as [|a rest IH]; intros d w; simpl.
  - intros [= <- _]. apply error_well_paired.
  - destruct (env (length (sent w)) _) as [r|e].
    + destruct (status_code r =? 429).
      * destruct (a <? m - 1); [apply IH|].
        intros [= <- _]. apply error_well_paired.
      * destruct (process_events r) eqn:P; intros [= <- _].
        -- eapply process_events_well_paired; eauto.
        -- apply events_except_well_paired.
    + intros [= <- _]. apply events_except_well_paired.
Qed.

Lemma find_loop_returns_error env link attempts d resp w r w' :
  find_loop env link attempts d resp w = (Return r, w') -> well_paired r.
Proof.
  revert d resp w. induction attempts as [|a rest IH]; intros d resp w; simpl.
  - discriminate.
  - destruct (env (length (sent w)) _) as [r0|e].
    + destruct (status_code r0 =? 429); [apply IH|].
      destruct (http_error r0); [|discriminate].
      destruct (a =? _); [|apply IH].
      intros [= <- _]. apply error_well_paired.
    + destruct (is_RequestException e); [|discriminate].
      destruct (a =? _); [|apply IH].
      intros [= <- _]. apply error_well_paired.
Qed.

Lemma filtered_loop_returns_error env req attempts d resp w r w' :
  filtered_loop env req attempts d resp w = (Return r, w') -> well_paired r.
Proof.
  revert d resp w. induction attempts as [|a rest IH]; intros d resp w; simpl.
  - discriminate.
  - destruct (env (length (sent w)) _) as [r0|e].
    + destruct (http_error r0); [|discriminate].
      simpl. destruct (is_true r0 && (status_code r0 =? 429)); [apply IH|].
      intros [= <- _]. apply error_well_paired.
    + destruct (is_HTTPError e).
      * destruct (rate_limited resp); [apply IH|].
        intros [= <- _]. apply error_well_paired.
      * destruct (is_RequestException e); [|discriminate].
        destruct (a =? _); [|apply IH].
        intros [= <- _]. apply error_well_paired.
Qed.

Lemma process_attractions_well_paired i t data r :
  process_attractions i t data = Ok r -> well_paired r.
Proof.
  unfold process_attractions. intros H.
  destruct (String.eqb t "name").
  - bind_inv H as has Hh. bind_inv H as has' Hh'. destruct has'.
    + bind_inv H as e He. bind_inv H as attractions Ha.
      bind_inv H as candidates Hc. bind_inv H as matched Hm.
      destruct matched; inversion H; subst.
      * apply error_well_paired.
      * unfold well_paired; simpl. split; [discriminate|reflexivity].
    + inversion H. apply error_well_paired.
  - bind_inv H as has Hh. bind_inv H as has' Hh'. destruct has'.
    + bind_inv H as row Hrow. inversion H; subst.
      unfold well_paired; simpl. split; [discriminate|reflexivity].
    + inversion H. apply error_well_paired.
Qed.

Lemma body_well_paired env i t k w r w' :
  find_attraction_info_body env i t k w = (Ok r, w') -> well_paired r.
Proof.
  unfold find_attraction_info_body.
  destruct (negb _); [discriminate|].
  destruct (String.eqb i ""); [intros [= <- _]; apply error_well_paired|].
  destruct (find_loop _ _ _ _ _ _) as [[[r0|]|r0|e] w0] eqn:L; try discriminate.
  - destruct (negb (status_code r0 =? 200)).
    + intros [= <- _]. apply error_well_paired.
    + intros [= H _]. bind_inv H as data Hd.
      eapply process_attractions_well_paired; eauto.
  - intros [= <- _]. eapply find_loop_returns_error; eauto.
Qed.

(** C10, as the code has it.  In every network, every envelope that
    [find_attraction_info] or [fetch_filtered_events] returns has a null
    error exactly when its table has a row, and [get_performer_events_1]
    always returns such an envelope: an error goes with the empty table,
    and a table without error has at least one row. *)
Theorem error_is_null_iff_table_has_rows :
  forall env,
    (forall identifier identifier_type api_key c w r c' w',
        reachable env c ->
        find_attraction_info env identifier identifier_type api_key c w
          = (Ok r, c', w') ->
        well_paired r) /\
    (forall attraction_id api_key max_retries w,
        exists r w',
          get_performer_events_1 env attraction_id api_key max_retries w
            = (Ok r, w') /\ well_paired r) /\
    (forall api_key start_date end_date city state_code country_code w r w',
        fetch_filtered_events env api_key start_date end_date city state_code
          country_code w = (Ok r, w') ->
        well_paired r).
Proof.
  intros env. split; [|split].
  - intros i t k c w r c' w' Hr. unfold find_attraction_info.
    destruct (cache_lookup (i, t, k) c) as [r0|] eqn:L.
    + destruct (cache_lookup_sound _ _ _ _ _ _ (reachable_sound _ _ Hr) L)
        as (w0 & w1 & B).
      intros [= <- _ _]. eapply body_well_paired; eauto.
    + destruct (find_attraction_info_body env i t k w) as [[r0|e] w0] eqn:B;
        [|discriminate].
      intros H. assert (r0 = r) by congruence. subst.
      eapply body_well_paired; eauto.
  - intros a k m w. unfold get_performer_events_1.
    destruct (events_loop _ _ _ _ _ _) as [res w'] eqn:L.
    exists res, w'. split; [reflexivity|].
    eapply events_loop_well_paired; eauto.
  - intros k sd ed ci st co w r w'. unfold fetch_filtered_events.
    destruct (filtered_loop _ _ _ _ _ _) as [[[r0|]|r0|e] w0] eqn:L;
      try discriminate.
    + destruct (negb (status_code r0 =? 200)).
      * intros [= <- _]. apply error_well_paired.
      * intros [= H _]. eapply process_filtered_well_paired; eauto.
    + intros [= <- _]. apply error_well_paired.
    + intros [= <- _]. eapply filtered_loop_returns_error; eauto.
Qed.

(** C10 on a successful name search and on a filtered search without
    events. *)
Lemma error_is_null_iff_table_has_rows_witness :
  well_paired ([named_row "Test Attraction" "123"], @None message) /\
  well_paired (@nil filtered_row, Some no_events_criteria).
Proof.
  split.
  - apply (proj1 (error_is_null_iff_table_has_rows
                    (always (ok_response
                               (attractions_payload [named "Test Attraction" "123"]))))
             "Test Attraction" "name" "dummy_api_key" [] fresh _
             [(("Test Attraction", "name", "dummy_api_key"),
               ([named_row "Test Attraction" "123"], None))]
             (mkWorld [find_request "Test Attraction" "name" "dummy_api_key"] [])).
    + apply reach_empty.
    + reflexivity.
  - apply (proj2 (proj2 (error_is_null_iff_table_has_rows
                           (always (ok_response (VDict [])))))
             "dummy_api_key" None None (Some "Nonexistent City") None None fresh _
             (mkWorld [mkRequest base_url
                         (filter_params "dummy_api_key" None None
                            (Some "Nonexistent City") None None)] [])).
    reflexivity.
Defined.

(** C10 as stated fails: not every call returns an envelope.  A call of
    [find_attraction_info] with an [identifier_type] other than [name] and
    [id] raises [ValueError], as it is meant to, and returns no pair at
    all; so does a filtered search whose reply holds an event with an
    empty venue list, which leaves with [IndexError]. *)
Lemma some_calls_return_no_envelope :
  (forall r c' w',
      find_attraction_info (always (ok_response (VDict [])))
        "Test Attraction" "invalid_type" "dummy_api_key" [] fresh
      <> (Ok r, c', w')) /\
  fst (fst (find_attraction_info (always (ok_response (VDict [])))
              "Test Attraction" "invalid_type" "dummy_api_key" [] fresh))
  = Raise invalid_type /\
  (forall r w',
      fetch_filtered_events
        (always (ok_response
                   (events_payload
                      [VDict [("_embedded", VDict [("venues", VList [])])]])))
        "dummy_api_key" None None None None None fresh
      <> (Ok r, w')) /\
  fst (fetch_filtered_events
         (always (ok_response
                    (events_payload
                       [VDict [("_embedded", VDict [("venues", VList [])])]])))
         "dummy_api_key" None None None None None fresh)
  = Raise IndexError.
Proof.
  split; [|split; [|split]].
  - intros r c' w' H. vm_compute in H. discriminate H.
  - reflexivity.
  - intros r w' H. vm_compute in H. discriminate H.
  - reflexivity.
Qed.

(** ** The token filter of the name search *)

Lemma no_space_app cur c :
  no_space (cur ++ String c EmptyString) = no_space cur && negb (is_space c).
Proof.
  induction cur as [|a cur IH]; simpl.
  - now rewrite andb_true_r.
  - rewrite IH. now rewrite andb_assoc.
Qed.

Lemma flush_In cur rest t :
  In t (flush cur rest) -> (t = cur /\ cur <> EmptyString) \/ In t rest.
Proof.
  destruct cur; simpl; [tauto|].
  intros [<-|H]; [left; split; [reflexivity|discriminate] | tauto].
Qed.

Lemma split_from_tokens s : forall cur t,
  no_space cur = true -> In t (split_from cur s) ->
  t <> EmptyString /\ no_space t = true.
Proof.
  induction s as [|c s IH]; intros cur t Hcur; simpl.
  - intros H. apply flush_In in H. destruct H as [[-> Hne]|[]]. auto.
  - destruct (is_space c) eqn:Sp.
    + intros H. apply flush_In in H. destruct H as [[-> Hne]|H]; [auto|].
      apply (IH EmptyString); [reflexivity | assumption].
    + apply IH. rewrite no_space_app, Hcur, Sp. reflexivity.
Qed.

Lemma all_keywords_in_spec qs ns :
  all_keywords_in qs ns = true <-> (forall t, In t qs -> In t ns).
Proof.
  unfold all_keywords_in. rewrite forallb_forall.
  split; intros H t Ht; specialize (H t Ht).
  - apply existsb_exists in H. destruct H as (n & Hn & E).
    apply String.eqb_eq in E. now subst.
  - apply existsb_exists. exists t. split; [assumption | apply String.eqb_refl].
Qed.

Lemma named_candidate c name kws :
  py_item c "name" = Ok name -> py_lower_split name = Ok kws ->
  exists s, candidate_name c = Some s /\ kws = split (lower s).
Proof.
  destruct c; simpl; try discriminate.
  destruct (lookup "name" d) as [v|]; [|discriminate].
  intros [= ->]. destruct name; simpl; try discriminate.
  intros [= <-]. eauto.
Qed.

Lemma match_attractions_selects identifier cands rows :
  match_attractions (split (lower identifier)) cands = Ok rows ->
  exists kept,
    selects (keeps identifier) cands kept /\
    mapM extract_attraction_info kept = Ok rows.
Proof.
  revert rows. induction cands as [|c cands IH]; intros rows; simpl.
  - intros [= <-]. exists []. split; [constructor | reflexivity].
  - intros H. bind_inv H as name Hn. bind_inv H as kws Hk.
    destruct (named_candidate _ _ _ Hn Hk) as (s & Hs & ->).
    destruct (all_keywords_in _ _) eqn:M.
    + bind_inv H as row Hrow. bind_inv H as rows' Hrows. inversion H; subst.
      destruct (IH _ Hrows) as (kept & Hsel & Hmap).
      exists (c :: kept). split.
      * constructor; [|assumption]. exists s. split; [assumption|].
        unfold token_match. now apply all_keywords_in_spec.
      * simpl. now rewrite Hrow, Hmap.
    + destruct (IH _ H) as (kept & Hsel & Hmap).
      exists kept. split; [|assumption].
      apply selects_drop; [|assumption].
      intros (s' & Hs' & Ht). rewrite Hs in Hs'. inversion Hs'; subst.
      unfold token_match in Ht. apply all_keywords_in_spec in Ht. congruence.
Qed.

Lemma match_attractions_none identifier cands :
  Forall (rejects identifier) cands ->
  match_attractions (split (lower identifier)) cands = Ok [].
Proof.
  induction 1 as [|c cands (name & Hn & Hr) _ IH]; [reflexivity|].
  simpl. destruct c; try discriminate. simpl in *.
  destruct (lookup "name" d) as [[| | | |s| |]|]; try discriminate.
  injection Hn as ->. simpl.
  destruct (all_keywords_in _ _) eqn:M; [|assumption].
  exfalso. apply Hr. unfold token_match. now apply all_keywords_in_spec.
Qed.

Lemma extract_attraction_info_total d :
  absent_or_dict (lookup "upcomingEvents" d) = true ->
  succeeds (extract_attraction_info (VDict d)).
Proof.
  unfold extract_attraction_info, get2, succeeds. simpl.
  destruct (lookup "upcomingEvents" d) as [[]|]; try discriminate;
    intros _; simpl; eauto.
Qed.

Lemma match_attractions_total kws cands :
  Forall flattenable cands -> succeeds (match_attractions kws cands).
Proof.
  induction 1 as [|c cands (d & name & -> & Hn & Hu) _ IH].
  - exists []. reflexivity.
  - destruct IH as (rows & IH).
    destruct (extract_attraction_info_total d Hu) as (row & Hrow).
    cbn [match_attractions]. unfold py_item. rewrite Hn. cbn [bind py_lower_split].
    rewrite IH, Hrow. cbn [bind].
    destruct (all_keywords_in _ _); eexists; reflexivity.
Qed.

(** *** The code's lower-casing and splitting are the specification's *)

Lemma lower_char_letter c : lower_char c = lower_letter c.
Proof. destruct c as [[] [] [] [] [] [] [] []]; reflexivity. Qed.

Lemma lower_lower_cased s : lower s = lower_cased s.
Proof.
  induction s as [|c s IH]; simpl; [reflexivity|].
  now rewrite lower_char_letter, IH.
Qed.

Lemma is_space_white c : is_space c = true <-> is_white c.
Proof.
  unfold is_white.
  destruct c as [[] [] [] [] [] [] [] []]; split; intros H;
    try reflexivity; try discriminate H;
    try (simpl; repeat (first [left; reflexivity | right]); fail);
    simpl in H;
    repeat (destruct H as [H|H]; [discriminate H|]); contradiction.
Qed.

Lemma not_space_not_white c : is_space c = false -> ~ is_white c.
Proof.
  intros H W. apply is_space_white in W. congruence.
Qed.

Lemma append_char cur c s :
  ((cur ++ String c EmptyString) ++ s = cur ++ String c s)%string.
Proof.
  induction cur as [|a cur IH]; simpl; [reflexivity|]. now rewrite IH.
Qed.

Lemma append_empty s : (s ++ EmptyString = s)%string.
Proof.
  induction s as [|a s IH]; simpl; [reflexivity|]. now rewrite IH.
Qed.

Lemma every_snoc P cur c :
  every P cur -> P c -> every P (cur ++ String c EmptyString).
Proof.
  induction cur as [|a cur IH]; simpl; [tauto|].
  intros [Ha Hc] Hp. split; [assumption | now apply IH].
Qed.

Lemma words_after_white c s ws :
  is_white c -> words s ws -> words (String c s) ws.
Proof.
  intros Hc H. inversion H as [s0 Hs|pre w rest ws' Hpre Hw Hn He Hr]; subst.
  - apply words_none. simpl. auto.
  - apply (words_next (String c pre) w rest ws'); simpl; auto.
Qed.

Lemma words_split_from s : forall cur,
  every (fun c => ~ is_white c) cur ->
  words (cur ++ s) (split_from cur s).
Proof.
  induction s as [|c s IH]; intros cur Hcur.
  - destruct cur as [|a cur]; simpl.
    + apply words_none. exact I.
    + apply (words_next EmptyString (String a cur) EmptyString []);
        simpl; auto; [discriminate | apply words_none; exact I].
  - cbn [split_from]. destruct (is_space c) eqn:Sp.
    + assert (Hc : is_white c) by (now apply is_space_white).
      assert (Hrest : words (String c s) (split_from EmptyString s)).
      { apply words_after_white; [assumption|]. apply (IH EmptyString). exact I. }
      destruct cur as [|a cur]; simpl flush.
      * exact Hrest.
      * apply (words_next EmptyString (String a cur) (String c s));
          simpl; auto. discriminate.
    + rewrite <- append_char. apply IH. apply every_snoc; [assumption|].
      now apply not_space_not_white.
Qed.

Lemma words_split s : words s (split s).
Proof. apply (words_split_from s EmptyString). exact I. Qed.

Lemma split_white s : every is_white s -> split_from EmptyString s = [].
Proof.
  induction s as [|c s IH]; simpl; [reflexivity|].
  intros [Hc Hs]. apply is_space_white in Hc. rewrite Hc. simpl. auto.
Qed.

Lemma split_after_white pre s :
  every is_white pre ->
  split_from EmptyString (pre ++ s) = split_from EmptyString s.
Proof.
  induction pre as [|c pre IH]; simpl; [reflexivity|].
  intros [Hc Hs]. apply is_space_white in Hc. rewrite Hc. simpl. auto.
Qed.

Lemma split_through_word w : forall cur rest,
  every (fun c => ~ is_white c) w ->
  split_from cur (w ++ rest) = split_from (cur ++ w) rest.
Proof.
  induction w as [|c w IH]; intros cur rest; simpl.
  - intros _. now rewrite append_empty.
  - intros [Hc Hw]. destruct (is_space c) eqn:Sp.
    + exfalso. apply Hc. now apply is_space_white.
    + rewrite IH by assumption. now rewrite append_char.
Qed.

Lemma split_at_end cur rest :
  cur <> EmptyString -> ends_word rest ->
  split_from cur rest = cur :: split_from EmptyString rest.
Proof.
  intros Hcur He. destruct rest as [|c rest]; simpl.
  - destruct cur; [congruence | reflexivity].
  - simpl in He. apply is_space_white in He. rewrite He.
    destruct cur; [congruence | reflexivity].
Qed.

Lemma words_unique s ws : words s ws -> ws = split s.
Proof.
  induction 1 as [s Hs|pre w rest ws Hpre Hw Hn He Hr IH]; unfold split.
  - now rewrite split_white.
  - rewrite split_after_white by assumption.
    rewrite split_through_word by assumption. simpl append.
    rewrite split_at_end by assumption. now rewrite IH.
Qed.

Lemma word_match_token_match identifier name :
  word_match identifier name <-> token_match identifier name.
Proof.
  unfold word_match, token_match. rewrite <- !lower_lower_cased. split.
  - intros (qs & ns & Hq & Hn & Hi).
    apply words_unique in Hq, Hn. subst. exact Hi.
  - intros H. exists (split (lower identifier)), (split (lower name)).
    split; [apply words_split|]. split; [apply words_split | exact H].
Qed.

Lemma selects_ext {A} (P Q : A -> Prop) l kept :
  (forall x, P x <-> Q x) -> selects P l kept -> selects Q l kept.
Proof.
  intros E. induction 1 as [|x l kept Hx _ IH|x l kept Hx _ IH].
  - constructor.
  - apply selects_keep; [now apply E | assumption].
  - apply selects_drop; [|assumption]. intros Hq. apply Hx. now apply E.
Qed.

Lemma keeps_words_keeps identifier a :
  keeps identifier a <-> keeps_words identifier a.
Proof.
  unfold keeps, keeps_words. split; intros (name & Hn & Hm); exists name;
    (split; [assumption|]); now apply word_match_token_match.
Qed.

(** C4.  In a name search whose body holds a list of candidates, the rows
    returned are the rows of the candidates kept, in order, and a candidate
    is kept exactly when every word of the lower-cased query is, as a whole
    word, among the words of its lower-cased name.  Lower-casing and words
    are those of the specification, stated without the functions of the
    code: the 26 upper-case letters go to their lower-case letters, and
    the words are the non-empty runs without white space; the code's
    [lower] and [split] compute exactly these.  The order of the words
    does not matter ("Swift Taylor" matches "Taylor Swift"), extra words in
    the name do not matter ("Taylor" matches "Taylor Swift World Tour"),
    the case does not matter ("taylor SWIFT" matches "Taylor Swift"), any
    white space separates words (a tab and a line feed in the name, two
    spaces in the query), and a part of a word is no match ("Tay" does not
    match "Taylor Swift", "Taylor Swift" does not match "TaylorSwift").
    The filter returns whenever every candidate is an object with a string
    name whose [upcomingEvents], if any, is an object. *)
Theorem name_search_keeps_token_matches :
  (forall identifier d e attractions cands rows err,
      lookup "_embedded" d = Some (VDict e) ->
      lookup "attractions" e = Some attractions ->
      py_iter attractions = Ok cands ->
      process_attractions identifier "name" (VDict d) = Ok (rows, err) ->
      exists kept,
        selects (keeps_words identifier) cands kept /\
        mapM extract_attraction_info kept = Ok rows) /\
  (forall identifier cands,
      Forall flattenable cands ->
      succeeds (match_attractions (split (lower identifier)) cands)) /\
  (forall s, lower s = lower_cased s) /\
  (forall s ws, words s ws <-> ws = split s) /\
  word_match "Swift Taylor" "Taylor Swift" /\
  word_match "Taylor" "Taylor Swift World Tour" /\
  ~ word_match "Tay" "Taylor Swift" /\
  word_match "taylor SWIFT" "Taylor Swift" /\
  word_match "swift  taylor" tabbed_name /\
  ~ word_match "Taylor Swift" "TaylorSwift" /\
  process_attractions "Swift Taylor" "name"
    (attractions_payload [named "Taylor Swift" "K1"])
    = Ok ([named_row "Taylor Swift" "K1"], None) /\
  process_attractions "Taylor" "name"
    (attractions_payload [named "Taylor Swift World Tour" "K2"])
    = Ok ([named_row "Taylor Swift World Tour" "K2"], None) /\
  process_attractions "taylor SWIFT" "name"
    (attractions_payload [named tabbed_name "K1"; named "TaylorSwift" "K4"])
    = Ok ([named_row tabbed_name "K1"], None).
Proof.
  split; [|split; [|split; [|split; [|split; [|split; [|split; [|split;
    [|split; [|split; [|split; [|split]]]]]]]]]]].
  - intros i d e a cands rows err Hd He Hc. unfold process_attractions.
    rewrite String.eqb_refl. simpl. rewrite Hd. simpl. rewrite He. simpl.
    rewrite Hc. simpl. intros H. bind_inv H as matched Hm.
    destruct (match_attractions_selects _ _ _ Hm) as (kept & Hsel & Hmap).
    exists kept. split.
    + eapply selects_ext; [|exact Hsel]. intros x. apply keeps_words_keeps.
    + destruct matched; inversion H; subst; assumption.
  - intros i cands. apply match_attractions_total.
  - apply lower_lower_cased.
  - intros s ws. split; [apply words_unique | intros ->; apply words_split].
  - apply word_match_token_match. intros t. vm_compute. tauto.
  - apply word_match_token_match. intros t. vm_compute. tauto.
  - intros H. apply word_match_token_match in H.
    specialize (H "tay"). vm_compute in H.
    destruct H as [H|[H|[]]]; [now left | discriminate | discriminate].
  - apply word_match_token_match. intros t. vm_compute. tauto.
  - apply word_match_token_match. intros t. vm_compute. tauto.
  - intros H. apply word_match_token_match in H.
    specialize (H "taylor"). vm_compute in H.
    destruct H as [H|[]]; [now left | discriminate].
  - reflexivity.
  - reflexivity.
  - reflexivity.
Qed.

(** C4 on a list of two candidates, of which the query "TAYLOR" keeps the
    first. *)
Lemma name_search_keeps_token_matches_witness :
  exists kept,
    selects (keeps_words "TAYLOR")
      [named "Taylor Swift World Tour" "K2"; named "Ed Sheeran" "K3"] kept /\
    mapM extract_attraction_info kept
      = Ok [named_row "Taylor Swift World Tour" "K2"].
Proof.
  apply (proj1 name_search_keeps_token_matches "TAYLOR"
           [("_embedded",
             VDict [("attractions",
                     VList [named "Taylor Swift World Tour" "K2";
                            named "Ed Sheeran" "K3"])])]
           [("attractions",
             VList [named "Taylor Swift World Tour" "K2"; named "Ed Sheeran" "K3"])]
           (VList [named "Taylor Swift World Tour" "K2"; named "Ed Sheeran" "K3"])
           _ _ None).
  - reflexivity.
  - reflexivity.
  - reflexivity.
  - reflexivity.
Defined.

(** ** Prices *)

Lemma extract_prices_first d prices rest :
  lookup "priceRanges" d = Some (VList (VDict prices :: rest)) ->
  extract_prices (VDict d) = Ok (price prices "min", price prices "max").
Proof.
  intros H. unfold extract_prices. simpl. rewrite H. reflexivity.
Qed.

Lemma extract_event_info_prices event row :
  extract_event_info event = Ok row ->
  exists min_price max_price,
    extract_prices event = Ok (min_price, max_price) /\
    e_Min_Price row = min_price /\ e_Max_Price row = max_price /\
    average_of min_price max_price = Ok (e_Average_Price row).
Proof.
  unfold extract_event_info. intros H.
  bind_inv H as mm Hmm. destruct mm as [mn mx]. simpl fst in H; simpl snd in H.
  bind_inv H as avg Havg.
  repeat (let x := fresh "x" in let Hx := fresh "Hx" in bind_inv H as x Hx).
  inversion H; subst; simpl. exists mn, mx. auto.
Qed.

Lemma float_of_Ok m e f :
  float_of m e = Ok f -> f = binary_normalize prec emax m e false.
Proof.
  unfold float_of. destruct (binary_normalize prec emax m e false);
    intros H; inversion H; reflexivity.
Qed.

Lemma py_average_ints a b v :
  py_average (VInt a) (VInt b) = Ok v ->
  v = VFloat (binary_normalize prec emax (a + b) (-1) false).
Proof.
  unfold py_average. cbn [as_number num_add bind num_half]. intros H.
  bind_inv H as h Hh. apply float_of_Ok in Hh. congruence.
Qed.

Lemma py_average_int_float a y v :
  py_average (VInt a) (VFloat y) = Ok v ->
  v = VFloat (SFdiv prec emax
                (SFadd prec emax (binary_normalize prec emax a 0 false) y) two).
Proof.
  unfold py_average. cbn [as_number num_add]. intros H.
  bind_inv H as s Hs. bind_inv Hs as f Hf. apply float_of_Ok in Hf.
  inversion Hs; subst s. cbn [num_half bind] in H. congruence.
Qed.

Lemma py_average_float_int x b v :
  py_average (VFloat x) (VInt b) = Ok v ->
  v = VFloat (SFdiv prec emax
                (SFadd prec emax x (binary_normalize prec emax b 0 false)) two).
Proof.
  unfold py_average. cbn [as_number num_add]. intros H.
  bind_inv H as s Hs. bind_inv Hs as f Hf. apply float_of_Ok in Hf.
  inversion Hs; subst s. cbn [num_half bind] in H. congruence.
Qed.

Lemma nonzero_truthy a : a <> 0 -> truthy (VInt a) = true.
Proof.
  intros H. simpl. apply Z.eqb_neq in H. now rewrite H.
Qed.

(** *** The floats that are integers

    An integer below 2^53 in absolute value, scaled by a power of two
    within the range of exponents, is a float: rounding returns it
    unchanged. *)

Lemma digits2_pos_size p : digits2_pos p = Pos.size p.
Proof. induction p; simpl; congruence. Qed.

Lemma digits2_pos_small m : Z.pos m < 2 ^ 53 -> Z.pos (digits2_pos m) <= 53.
Proof.
  intros H. rewrite digits2_pos_size.
  destruct (Z_le_gt_dec (Z.pos (Pos.size m)) 53) as [L|G]; [exact L|exfalso].
  pose proof (Pos.size_le m) as S.
  assert (H0 : 2 ^ 54 <= 2 ^ Z.pos (Pos.size m))
    by (apply Z.pow_le_mono_r; lia).
  assert (2 ^ Z.pos (Pos.size m) <= 2 * Z.pos m).
  { change (2 * Z.pos m) with (Z.pos m~0). rewrite <- Pos2Z.inj_pow. exact S. }
  change (2 ^ 54) with (2 * 2 ^ 53) in H0. lia.
Qed.

Lemma iter_xO_value m k : Z.pos (Pos.iter xO m k) = Z.pos m * 2 ^ Z.pos k.
Proof.
  induction k using Pos.peano_ind.
  - simpl. lia.
  - rewrite Pos.iter_succ, Pos2Z.inj_succ, Z.pow_succ_r by lia.
    rewrite Pos2Z.inj_xO, IHk. lia.
Qed.

Lemma iter_xO_digits m k :
  digits2_pos (Pos.iter xO m k) = (digits2_pos m + k)%positive.
Proof.
  induction k using Pos.peano_ind.
  - simpl. now rewrite Pos.add_1_r.
  - rewrite Pos.iter_succ. simpl. rewrite IHk. now rewrite Pos.add_succ_r.
Qed.

Lemma binary_round_aux_exact s m e :
  Z.pos (digits2_pos m) = 53 -> -1074 <= e <= 971 ->
  binary_round_aux prec emax s (Z.pos m) e loc_Exact = S754_finite s m e.
Proof.
  intros Hd He. unfold binary_round_aux, shr_fexp.
  cbn [Zdigits2 shr_record_of_loc]. rewrite Hd.
  assert (F : fexp prec emax (53 + e) - e = 0).
  { unfold fexp, emin, prec, emax. lia. }
  rewrite F. cbn [shr shr_m loc_of_shr_record shr_r shr_s round_nearest_even].
  cbn [Zdigits2 shr_record_of_loc]. rewrite Hd, F.
  cbn [shr shr_m]. unfold emax, prec.
  destruct (e <=? 1024 - 53) eqn:E; [reflexivity|]. apply Z.leb_gt in E. lia.
Qed.

Lemma binary_round_small s m e :
  Z.pos m < 2 ^ 53 -> -1022 <= e <= 918 ->
  exists m' e',
    binary_round prec emax s m e = S754_finite s m' e' /\
    e' <= e /\ Z.pos m' = Z.pos m * 2 ^ (e - e').
Proof.
  intros Hm He. pose proof (digits2_pos_small m Hm) as Hd.
  unfold binary_round, shl_align.
  assert (F : fexp prec emax (Z.pos (digits2_pos m) + e)
              = Z.pos (digits2_pos m) + e - 53).
  { unfold fexp, emin, prec, emax. lia. }
  rewrite F.
  destruct (Z.pos (digits2_pos m) + e - 53 - e) as [|k|k] eqn:E; try lia.
  - exists m, e. split; [|split; [lia|]].
    + apply binary_round_aux_exact; lia.
    + rewrite Z.sub_diag. simpl. lia.
  - exists (Pos.iter xO m k), (Z.pos (digits2_pos m) + e - 53).
    split; [|split; [lia|]].
    + apply binary_round_aux_exact; [|lia].
      rewrite iter_xO_digits, Pos2Z.inj_add. lia.
    + rewrite iter_xO_value. f_equal. f_equal. lia.
Qed.

Lemma float_value_scaled (s : bool) m m' e e' :
  e' <= e -> Z.pos m' = Z.pos m * 2 ^ (e - e') ->
  (inject_Z (if s then Z.neg m' else Z.pos m') * Qpower 2 e'
   == inject_Z (if s then Z.neg m else Z.pos m) * Qpower 2 e)%Q.
Proof.
  intros Hle Hm.
  assert (E : (Qpower 2 e == Qpower 2 (e - e') * Qpower 2 e')%Q).
  { rewrite <- Qpower_plus by discriminate.
    now replace (e - e' + e') with e by lia. }
  rewrite E. rewrite Qmult_assoc. apply Qmult_comp; [|reflexivity].
  rewrite <- (Zpower_Qpower 2 (e - e')) by lia.
  rewrite <- inject_Z_mult.
  destruct s.
  - change (Z.neg m') with (- Z.pos m'). change (Z.neg m) with (- Z.pos m).
    rewrite Hm. now rewrite Z.mul_opp_l.
  - now rewrite Hm.
Qed.

Lemma binary_normalize_exact z e :
  Z.abs z < 2 ^ 53 -> -1022 <= e <= 918 ->
  exists q, float_value (binary_normalize prec emax z e false) = Some q /\
            (q == inject_Z z * Qpower 2 e)%Q.
Proof.
  intros Hz He. destruct z as [|m|m]; unfold binary_normalize.
  - exists 0%Q. split; [reflexivity|]. now rewrite Qmult_0_l.
  - destruct (binary_round_small false m e Hz He) as (m' & e' & -> & Hle & Hm).
    eexists. split; [reflexivity|].
    exact (float_value_scaled false m m' e e' Hle Hm).
  - destruct (binary_round_small true m e Hz He) as (m' & e' & -> & Hle & Hm).
    eexists. split; [reflexivity|].
    exact (float_value_scaled true m m' e e' Hle Hm).
Qed.

Lemma small_integers_fit z e :
  Z.abs z < 2 ^ 53 -> -1022 <= e <= 918 -> in_float_range z e = true.
Proof.
  intros Hz He. unfold in_float_range.
  destruct (binary_normalize_exact z e Hz He) as (q & Hq & _).
  destruct (binary_normalize prec emax z e false); try reflexivity.
  discriminate Hq.
Qed.

(** C5, as the code has it.  When the event has a [priceRanges] list that
    starts with an object, the row of the event carries that object's
    [min] and [max] as its prices.  Its average is Python's value of
    [(min + max) / 2] when both are numbers other than zero: for two
    integers the float nearest to half their sum, which is exactly
    [(min + max) / 2] when the sum is below 2^53 in absolute value; for
    two floats their rounded sum divided by [2.0]; an integer that meets a
    float is converted first.  The average is null when either price is
    false, in particular when either is zero or missing.  The event with
    [priceRanges = [{min: 50, max: 150}]] gives 50, 150 and 100.0, and
    the event with [priceRanges = [{min: 0.1, max: 0.2}]] gives the
    average 0.15000000000000002. *)
Theorem first_price_range_and_average :
  (forall d prices rest row,
      lookup "priceRanges" d = Some (VList (VDict prices :: rest)) ->
      extract_event_info (VDict d) = Ok row ->
      e_Min_Price row = price prices "min" /\
      e_Max_Price row = price prices "max" /\
      (forall a b,
          price prices "min" = VInt a -> price prices "max" = VInt b ->
          a <> 0 -> b <> 0 ->
          e_Average_Price row
            = VFloat (binary_normalize prec emax (a + b) (-1) false) /\
          (Z.abs (a + b) < 2 ^ 53 ->
           exists q,
             float_value (binary_normalize prec emax (a + b) (-1) false)
               = Some q /\
             (q == (inject_Z a + inject_Z b) / 2)%Q)) /\
      (forall x y,
          price prices "min" = VFloat x -> price prices "max" = VFloat y ->
          truthy (VFloat x) = true -> truthy (VFloat y) = true ->
          e_Average_Price row
            = VFloat (SFdiv prec emax (SFadd prec emax x y) two)) /\
      (forall a y,
          price prices "min" = VInt a -> price prices "max" = VFloat y ->
          a <> 0 -> truthy (VFloat y) = true ->
          e_Average_Price row
            = VFloat (SFdiv prec emax
                        (SFadd prec emax
                           (binary_normalize prec emax a 0 false) y) two)) /\
      (forall x b,
          price prices "min" = VFloat x -> price prices "max" = VInt b ->
          truthy (VFloat x) = true -> b <> 0 ->
          e_Average_Price row
            = VFloat (SFdiv prec emax
                        (SFadd prec emax x
                           (binary_normalize prec emax b 0 false)) two)) /\
      (truthy (price prices "min") && truthy (price prices "max") = false ->
       e_Average_Price row = VNone) /\
      (forall v, v = VInt 0 \/ (exists s, v = VFloat (S754_zero s)) ->
                 price prices "min" = v \/ price prices "max" = v ->
                 e_Average_Price row = VNone) /\
      (lookup "min" prices = None \/ lookup "max" prices = None ->
       e_Average_Price row = VNone)) /\
  (exists row,
      extract_event_info priced_event = Ok row /\
      e_Min_Price row = VInt 50 /\ e_Max_Price row = VInt 150 /\
      e_Average_Price row = VFloat one_hundred) /\
  (exists q, float_value one_hundred = Some q /\ (q == 100)%Q) /\
  (exists q, float_value two = Some q /\ (q == 2)%Q) /\
  (exists row,
      extract_event_info cents_event = Ok row /\
      e_Min_Price row = VFloat a_tenth /\ e_Max_Price row = VFloat a_fifth /\
      e_Average_Price row = VFloat rounded_average).
Proof.
  split; [|split; [|split; [|split]]].
  - intros d prices rest row Hd Hrow.
    destruct (extract_event_info_prices _ _ Hrow)
      as (mn & mx & Hp & Hmin & Hmax & Havg).
    rewrite (extract_prices_first _ _ _ Hd) in Hp. injection Hp as <- <-.
    assert (Hfalsy : truthy (price prices "min") && truthy (price prices "max")
                     = false ->
                     e_Average_Price row = VNone).
    { intros F. unfold average_of in Havg. rewrite F in Havg. congruence. }
    split; [exact Hmin|]. split; [exact Hmax|].
    split; [|split; [|split; [|split; [|split; [exact Hfalsy|split]]]]].
    + intros a b Ha Hb Hna Hnb. unfold average_of in Havg.
      rewrite Ha, Hb in Havg.
      rewrite (nonzero_truthy _ Hna), (nonzero_truthy _ Hnb) in Havg.
      cbn [andb] in Havg. split; [now apply py_average_ints|].
      intros Hsmall.
      destruct (binary_normalize_exact (a + b) (-1) Hsmall ltac:(lia))
        as (q & Hq & Eq).
      exists q. split; [exact Hq|]. rewrite Eq, inject_Z_plus. reflexivity.
    + intros x y Hx Hy Tx Ty. unfold average_of in Havg.
      rewrite Hx, Hy, Tx, Ty in Havg. cbn [andb] in Havg.
      unfold py_average in Havg. cbn [as_number num_add bind num_half] in Havg.
      congruence.
    + intros a y Ha Hy Hna Ty. unfold average_of in Havg.
      rewrite Ha, Hy, (nonzero_truthy _ Hna), Ty in Havg. cbn [andb] in Havg.
      now apply py_average_int_float.
    + intros x b Hx Hb Tx Hnb. unfold average_of in Havg.
      rewrite Hx, Hb, (nonzero_truthy _ Hnb), Tx in Havg. cbn [andb] in Havg.
      now apply py_average_float_int.
    + intros v Hv [E|E]; apply Hfalsy; rewrite E;
        destruct Hv as [-> | (s & ->)]; try reflexivity; apply andb_false_r.
    + intros [E|E]; apply Hfalsy; unfold price; rewrite E.
      * reflexivity.
      * apply andb_false_r.
  - eexists. split; [reflexivity|]. simpl. repeat split.
  - eexists. split; [reflexivity|]. reflexivity.
  - eexists. split; [reflexivity|]. reflexivity.
  - eexists. split; [reflexivity|]. repeat split.
Qed.

(** C5 on the event with [priceRanges = [{min: 50, max: 150}]]. *)
Lemma first_price_range_and_average_witness :
  let row := mkEvent VNone VNone VNone VNone VNone (VStr "N/A") VNone VNone
               VNone VNone VNone VNone (VInt 50) (VInt 150)
               (VFloat one_hundred) in
  e_Min_Price row = VInt 50 /\ e_Max_Price row = VInt 150 /\
  e_Average_Price row
    = VFloat (binary_normalize prec emax (50 + 150) (-1) false) /\
  exists q,
    float_value (binary_normalize prec emax (50 + 150) (-1) false) = Some q /\
    (q == (inject_Z 50 + inject_Z 150) / 2)%Q.
Proof.
  intros row.
  destruct (proj1 first_price_range_and_average
              [("priceRanges", VList [VDict [("min", VInt 50); ("max", VInt 150)]])]
              [("min", VInt 50); ("max", VInt 150)] [] row eq_refl eq_refl)
    as (Hmin & Hmax & Havg & _).
  split; [exact Hmin|]. split; [exact Hmax|].
  destruct (Havg 50 150 eq_refl eq_refl ltac:(discriminate) ltac:(discriminate))
    as (Hval & Hexact).
  split; [exact Hval|]. apply Hexact. reflexivity.
Defined.

(** C5 does not hold as it reads for prices with cents, nor for every pair
    of numbers: with [min = 0.1] and [max = 0.2] the average of the row is
    the float 0.15000000000000002, which is not half the sum of the two
    prices, and with two prices of 10^400 the flattening raises
    [OverflowError] and gives no row. *)
Lemma average_is_rounded_and_can_overflow :
  (exists row f q x y,
      extract_event_info cents_event = Ok row /\
      e_Min_Price row = VFloat a_tenth /\ e_Max_Price row = VFloat a_fifth /\
      e_Average_Price row = VFloat f /\
      float_value f = Some q /\
      float_value a_tenth = Some x /\ float_value a_fifth = Some y /\
      ~ (q == (x + y) / 2)%Q) /\
  extract_event_info huge_event = Raise OverflowError.
Proof.
  split.
  - eexists. eexists. eexists. eexists. eexists.
    split; [reflexivity|]. split; [reflexivity|]. split; [reflexivity|].
    split; [reflexivity|]. split; [reflexivity|]. split; [reflexivity|].
    split; [reflexivity|].
    intros H. vm_compute in H. discriminate H.
  - vm_compute. reflexivity.
Qed.

(** ** The not-found outcomes of [find_attraction_info] *)

Lemma range_5 : range 5 = [0; 1; 2; 3; 4].
Proof. reflexivity. Qed.

Lemma find_body_first_reply env i t k w data :
  t = "name" \/ t = "id" ->
  i <> "" ->
  answers_200 env (mkRequest (find_link i t k) []) w data ->
  find_attraction_info_body env i t k w
    = (process_attractions i t data,
       mkWorld (mkRequest (find_link i t k) [] :: sent w) (slept w)).
Proof.
  intros Ht Hi (r & E & S & H & B). unfold find_attraction_info_body.
  replace (negb (String.eqb t "name" || String.eqb t "id")) with false
    by (destruct Ht as [-> | ->]; reflexivity).
  apply String.eqb_neq in Hi. rewrite Hi, range_5.
  cbn [find_loop]. unfold send. rewrite E, S, H.
  change (200 =? 429) with false. cbv iota beta.
  rewrite S. change (negb (200 =? 200)) with false. cbv iota.
  unfold json. rewrite B. reflexivity.
Qed.

Lemma find_first_reply env i t k c w data r :
  t = "name" \/ t = "id" ->
  i <> "" ->
  cache_lookup (i, t, k) c = None ->
  answers_200 env (mkRequest (find_link i t k) []) w data ->
  process_attractions i t data = Ok r ->
  exists c',
    find_attraction_info env i t k c w
      = (Ok r, c', mkWorld (mkRequest (find_link i t k) [] :: sent w) (slept w)).
Proof.
  intros Ht Hi Hc Ha P. unfold find_attraction_info. rewrite Hc.
  rewrite (find_body_first_reply env i t k w data Ht Hi Ha), P. eauto.
Qed.

(** C6, as the code has it.  A name search or an id lookup that is not
    served from the cache and whose request is answered with status 200
    and a JSON object returns the empty table with
    - "No matching attractions found." when the object has no [_embedded]
      key, or its [_embedded] object has no [attractions] key;
    - "No matching attractions found with the name." when the list is there
      and every candidate has a name that lacks a word of the query;
    - "No matching attractions found by ID." for an id lookup whose object
      lacks [name] or [id];
    after exactly one request, and the three messages differ. *)
Theorem not_found_outcomes_are_distinguished :
  forall env identifier api_key c w d,
    identifier <> "" ->
    (cache_lookup (identifier, "name", api_key) c = None ->
     answers_200 env (find_request identifier "name" api_key) w (VDict d) ->
     (lookup "_embedded" d = None \/
      exists e, lookup "_embedded" d = Some (VDict e) /\
                lookup "attractions" e = None) ->
     exists c',
       find_attraction_info env identifier "name" api_key c w
         = (Ok ([], Some no_match), c',
            mkWorld (find_request identifier "name" api_key :: sent w) (slept w))) /\
    (cache_lookup (identifier, "name", api_key) c = None ->
     answers_200 env (find_request identifier "name" api_key) w (VDict d) ->
     (exists e cands,
         lookup "_embedded" d = Some (VDict e) /\
         lookup "attractions" e = Some (VList cands) /\
         Forall (rejects identifier) cands) ->
     exists c',
       find_attraction_info env identifier "name" api_key c w
         = (Ok ([], Some no_match_name), c',
            mkWorld (find_request identifier "name" api_key :: sent w) (slept w))) /\
    (cache_lookup (identifier, "id", api_key) c = None ->
     answers_200 env (find_request identifier "id" api_key) w (VDict d) ->
     (lookup "name" d = None \/ lookup "id" d = None) ->
     exists c',
       find_attraction_info env identifier "id" api_key c w
         = (Ok ([], Some no_match_id), c',
            mkWorld (find_request identifier "id" api_key :: sent w) (slept w))) /\
    no_match <> no_match_name /\ no_match <> no_match_id /\
    no_match_name <> no_match_id.
Proof.
  intros env i k c w d Hi. unfold find_request.
  repeat split; try discriminate.
  - intros Hc Ha Hd.
    destruct (find_first_reply env i "name" k c w (VDict d) ([], Some no_match))
      as (c' & E); auto; [|exists c'; exact E].
    unfold process_attractions. simpl.
    destruct Hd as [-> | (e & -> & He)]; [reflexivity|].
    simpl. now rewrite He.
  - intros Hc Ha (e & cands & Hd & He & Hrej).
    destruct (find_first_reply env i "name" k c w (VDict d)
                ([], Some no_match_name)) as (c' & E); auto;
      [|exists c'; exact E].
    unfold process_attractions. simpl. rewrite Hd. simpl. rewrite He. simpl.
    now rewrite (match_attractions_none _ _ Hrej).
  - intros Hc Ha Hd.
    destruct (find_first_reply env i "id" k c w (VDict d) ([], Some no_match_id))
      as (c' & E); auto; [|exists c'; exact E].
    unfold process_attractions. simpl.
    destruct Hd as [-> | Hid]; [reflexivity|].
    destruct (lookup "name" d); [|reflexivity]. simpl. now rewrite Hid.
Qed.

(** C6 on the test of the suite: the body [{}] with status 200. *)
Lemma not_found_outcomes_are_distinguished_witness :
  exists c',
    find_attraction_info (always (ok_response (VDict [])))
      "Nonexistent Attraction" "name" "dummy_api_key" [] fresh
      = (Ok ([], Some no_match), c',
         mkWorld [find_request "Nonexistent Attraction" "name" "dummy_api_key"] []).
Proof.
  apply (proj1 (not_found_outcomes_are_distinguished
                  (always (ok_response (VDict [])))
                  "Nonexistent Attraction" "dummy_api_key" [] fresh []
                  ltac:(discriminate))).
  - reflexivity.
  - exists (ok_response (VDict [])). repeat split.
  - left. reflexivity.
Defined.

(** C6 as stated fails on a 2xx status other than 200: the body [{}] with
    status 201 is reported as "Error fetching data: Status code 201", not
    as "No matching attractions found.". *)
Lemma status_201_is_not_a_not_found :
  find_attraction_info (always (http_response 201 "Created" (Some (VDict []))))
    "Nonexistent Attraction" "name" "dummy_api_key" [] fresh
  = (Ok ([], Some [Lit "Error fetching data: Status code "; Int 201]),
     [(("Nonexistent Attraction", "name", "dummy_api_key"),
       ([], Some [Lit "Error fetching data: Status code "; Int 201]))],
     mkWorld [find_request "Nonexistent Attraction" "name" "dummy_api_key"] []) /\
  [Lit "Error fetching data: Status code "; Int 201] <> no_match.
Proof.
  split; [reflexivity | discriminate].
Qed.

(** ** One retry after a rate limit *)

Lemma range_cons2 n : 1 < n -> exists rest, range n = 0 :: 1 :: rest.
Proof.
  intros H. unfold range.
  destruct (Z.to_nat n) as [|[|k]] eqn:E; try lia.
  simpl. eauto.
Qed.

Lemma find_loop_one_retry env link a rest d resp w r429 r200 :
  env (length (sent w)) (mkRequest link []) = Responds r429 ->
  status_code r429 = 429 ->
  env (S (length (sent w))) (mkRequest link []) = Responds r200 ->
  status_code r200 = 200 ->
  http_error r200 = None ->
  find_loop env link (0 :: a :: rest) d resp w
    = (Leave (Some r200),
       mkWorld (mkRequest link [] :: mkRequest link [] :: sent w) (d :: slept w)).
Proof.
  intros E1 S1 E2 S2 H2. simpl. rewrite E1, S1. simpl. rewrite E2, S2, H2.
  reflexivity.
Qed.

Lemma events_loop_one_retry env link m rest d w r429 r200 res :
  1 < m ->
  env (length (sent w)) (mkRequest link []) = Responds r429 ->
  status_code r429 = 429 ->
  env (S (length (sent w))) (mkRequest link []) = Responds r200 ->
  status_code r200 <> 429 ->
  process_events r200 = Ok res ->
  events_loop env link m (0 :: 1 :: rest) d w
    = (res,
       mkWorld (mkRequest link [] :: mkRequest link [] :: sent w) (d :: slept w)).
Proof.
  intros Hm E1 S1 E2 S2 P. simpl. rewrite E1, S1. simpl.
  destruct (0 <? m - 1) eqn:L; [|apply Z.ltb_ge in L; lia].
  simpl. rewrite E2. apply Z.eqb_neq in S2. rewrite S2, P. reflexivity.
Qed.

(** C1, as the code has it.  When the first request is answered with
    status 429 and the second with status 200 and a payload from which
    the flattening gives rows without error, [find_attraction_info] (not
    served from its cache) and [get_performer_events_1] (allowed more
    than one attempt) send exactly these two requests, sleep once, for one
    second, between them, and return those rows with a null error. *)
Theorem one_retry_after_rate_limit :
  forall env,
    (forall identifier identifier_type api_key c w r429 r200 data rows,
        let req := find_request identifier identifier_type api_key in
        identifier_type = "name" \/ identifier_type = "id" ->
        identifier <> "" ->
        cache_lookup (identifier, identifier_type, api_key) c = None ->
        env (length (sent w)) req = Responds r429 ->
        status_code r429 = 429 ->
        env (S (length (sent w))) req = Responds r200 ->
        status_code r200 = 200 ->
        http_error r200 = None ->
        body r200 = Some data ->
        process_attractions identifier identifier_type data = Ok (rows, None) ->
        exists c',
          find_attraction_info env identifier identifier_type api_key c w
            = (Ok (rows, None), c',
               mkWorld (req :: req :: sent w) (1 :: slept w))) /\
    (forall attraction_id api_key max_retries w r429 r200 rows,
        let req := events_request attraction_id api_key in
        1 < max_retries ->
        env (length (sent w)) req = Responds r429 ->
        status_code r429 = 429 ->
        env (S (length (sent w))) req = Responds r200 ->
        status_code r200 = 200 ->
        process_events r200 = Ok (rows, None) ->
        get_performer_events_1 env attraction_id api_key max_retries w
          = (Ok (rows, None), mkWorld (req :: req :: sent w) (1 :: slept w))).
Proof.
  intros env. split.
  - intros i t k c w r429 r200 data rows req Ht Hi Hc E1 S1 E2 S2 H2 B P.
    unfold find_request in req.
    unfold find_attraction_info. rewrite Hc.
    unfold find_attraction_info_body.
    replace (negb (String.eqb t "name" || String.eqb t "id")) with false
      by (destruct Ht as [-> | ->]; reflexivity).
    apply String.eqb_neq in Hi. rewrite Hi. rewrite range_5.
    fold req in E1, E2 |- *.
    rewrite (find_loop_one_retry env _ 1 [2; 3; 4] 1 None w r429 r200
               E1 S1 E2 S2 H2).
    rewrite S2. unfold json. rewrite B. cbn [negb Z.eqb bind].
    rewrite P. change (negb (200 =? 200)%positive) with false.
    cbv iota beta. eauto.
  - intros a k m w r429 r200 rows req Hm E1 S1 E2 S2 P.
    unfold events_request in req.
    unfold get_performer_events_1.
    destruct (range_cons2 m Hm) as (rest & ->).
    fold req in E1, E2 |- *.
    assert (S2' : status_code r200 <> 429) by lia.
    rewrite (events_loop_one_retry env _ m rest 1 w r429 r200 _
               Hm E1 S1 E2 S2' P).
    reflexivity.
Qed.

(** C1 on the two rate-limiting tests of the suite. *)
Lemma one_retry_after_rate_limit_witness :
  (let req := find_request "Test Attraction" "name" "dummy_api_key" in
   exists c',
     find_attraction_info
       (limited_then (ok_response
                        (attractions_payload [named "Test Attraction" "123"])))
       "Test Attraction" "name" "dummy_api_key" [] fresh
       = (Ok ([named_row "Test Attraction" "123"], None), c',
          mkWorld [req; req] [1])) /\
  (let req := events_request "attraction_id" "api_key" in
   get_performer_events_1
     (limited_then (ok_response (events_payload [VDict []])))
     "attraction_id" "api_key" 5 fresh
     = (Ok ([blank_event_row], None), mkWorld [req; req] [1])).
Proof.
  split.
  - apply (proj1 (one_retry_after_rate_limit
                    (limited_then
                       (ok_response
                          (attractions_payload [named "Test Attraction" "123"]))))
             "Test Attraction" "name" "dummy_api_key" [] fresh
             too_many_requests
             (ok_response (attractions_payload [named "Test Attraction" "123"]))
             (attractions_payload [named "Test Attraction" "123"])
             [named_row "Test Attraction" "123"]).
    + left. reflexivity.
    + discriminate.
    + reflexivity.
    + reflexivity.
    + reflexivity.
    + reflexivity.
    + reflexivity.
    + reflexivity.
    + reflexivity.
    + reflexivity.
  - apply (proj2 (one_retry_after_rate_limit
                    (limited_then (ok_response (events_payload [VDict []]))))
             "attraction_id" "api_key" 5 fresh
             too_many_requests
             (ok_response (events_payload [VDict []]))
             [blank_event_row]).
    + lia.
    + reflexivity.
    + reflexivity.
    + reflexivity.
    + reflexivity.
    + reflexivity.
Defined.

(** C1 as stated fails.  [fetch_filtered_events] does not retry after a
    429: a [requests.Response] with status 429 is false, so the test
    [response and response.status_code == 429] fails and the call returns
    "HTTP error occurred: ..." after one request; with the mock of the test
    suite [raise_for_status()] does not raise, the loop is left and the
    call returns "No successful response received from the API.".  The
    payload that follows is one the flattening accepts.  And
    [find_attraction_info] reports a 2xx status other than 200 as an
    error after its retry. *)
Lemma rate_limit_then_success_is_not_always_a_table :
  fetch_filtered_events
    (limited_then (ok_response (events_payload [VDict []])))
    "dummy_api_key" None None None None None fresh
  = (Ok ([], Some [Lit "HTTP error occurred: ";
                   Exc (HTTPError "429 Client Error: Too Many Requests")]),
     mkWorld [filter_request "dummy_api_key"] []) /\
  fetch_filtered_events
    (replies [Responds (mock_response 429 None)]
       (Responds (mock_response 200 (Some (events_payload [VDict []])))))
    "dummy_api_key" None None None None None fresh
  = (Ok ([], Some no_response), mkWorld [filter_request "dummy_api_key"] []) /\
  process_filtered (ok_response (events_payload [VDict []]))
  = Ok ([blank_filtered_row], None) /\
  fst (fst (find_attraction_info
              (limited_then
                 (http_response 201 "Created"
                    (Some (attractions_payload [named "Test Attraction" "123"]))))
              "Test Attraction" "name" "dummy_api_key" [] fresh))
  = Ok ([], Some [Lit "Error fetching data: Status code "; Int 201]).
Proof.
  repeat split.
Qed.

(** ** Failures that leave as exceptions *)

(** C2 fails on the code.  A name search answered with status 200 and a
    candidate without [name] raises [KeyError] out of
    [find_attraction_info], whose [identifier_type] is valid; an event
    with an empty [venues] list raises [IndexError] out of
    [fetch_filtered_events]; the same event in [get_performer_events_1]
    is caught and comes back as an "Other error occurred: ..."
    envelope. *)
Theorem response_shapes_that_raise :
  find_attraction_info
    (always (ok_response (attractions_payload [VDict [("id", VStr "123")]])))
    "Test Attraction" "name" "dummy_api_key" [] fresh
  = (Raise KeyError, [],
     mkWorld [find_request "Test Attraction" "name" "dummy_api_key"] []) /\
  fetch_filtered_events
    (always (ok_response
               (events_payload [VDict [("_embedded", VDict [("venues", VList [])])]])))
    "dummy_api_key" None None None None None fresh
  = (Raise IndexError, mkWorld [filter_request "dummy_api_key"] []) /\
  get_performer_events_1
    (always (ok_response
               (events_payload [VDict [("_embedded", VDict [("venues", VList [])])]])))
    "attraction_id" "api_key" 5 fresh
  = (Ok ([], Some [Lit "Other error occurred: "; Exc IndexError]),
     mkWorld [events_request "attraction_id" "api_key"] []).
Proof.
  repeat split.
Qed.

(** ** Which events [extract_event_info] flattens *)

Lemma get3_value d k1 k2 k3 :
  absent_or_dict (lookup k1 d) = true ->
  absent_or_dict (sub (lookup k1 d) k2) = true ->
  get3 (VDict d) k1 k2 k3 = Ok (or_none (sub (sub (lookup k1 d) k2) k3)).
Proof.
  unfold get3. simpl. destruct (lookup k1 d) as [[]|]; try discriminate; simpl.
  - destruct (lookup k2 d0) as [[]|]; try discriminate; reflexivity.
  - reflexivity.
Qed.

Lemma get3_shape d k1 k2 k3 v :
  get3 (VDict d) k1 k2 k3 = Ok v ->
  absent_or_dict (lookup k1 d) = true /\
  absent_or_dict (sub (lookup k1 d) k2) = true.
Proof.
  unfold get3. simpl. destruct (lookup k1 d) as [[]|]; simpl; try discriminate.
  - destruct (lookup k2 d0) as [[]|]; simpl; try discriminate; auto.
  - auto.
Qed.

Lemma get2_value d k1 k2 :
  absent_or_dict (lookup k1 d) = true ->
  get2 (VDict d) k1 k2 VNone = Ok (or_none (sub (lookup k1 d) k2)).
Proof.
  unfold get2. simpl.
  destruct (lookup k1 d) as [[]|]; try discriminate; reflexivity.
Qed.

Lemma float_of_in_range m e :
  in_float_range m e = true ->
  float_of m e = Ok (binary_normalize prec emax m e false).
Proof.
  unfold in_float_range, float_of.
  destruct (binary_normalize prec emax m e false); try reflexivity.
  discriminate.
Qed.

Lemma float_of_out_of_range m e :
  in_float_range m e = false -> float_of m e = Raise OverflowError.
Proof.
  unfold in_float_range, float_of.
  destruct (binary_normalize prec emax m e false); try discriminate.
  reflexivity.
Qed.

Lemma averageable_average a b :
  averageable a b = true -> exists v, py_average a b = Ok v.
Proof.
  unfold averageable, py_average.
  destruct (as_number a) as [[x|x]|]; [| |discriminate];
    destruct (as_number b) as [[y|y]|]; try discriminate; intros H;
    cbn [num_add bind num_half].
  - rewrite (float_of_in_range _ _ H). eexists; reflexivity.
  - rewrite (float_of_in_range _ _ H). eexists; reflexivity.
  - rewrite (float_of_in_range _ _ H). eexists; reflexivity.
  - eexists; reflexivity.
Qed.

Lemma average_averageable a b v :
  py_average a b = Ok v -> averageable a b = true.
Proof.
  unfold averageable, py_average.
  destruct (as_number a) as [[x|x]|]; [| |discriminate];
    destruct (as_number b) as [[y|y]|]; try discriminate;
    cbn [num_add bind num_half]; try reflexivity.
  - destruct (in_float_range (x + y) (-1)) eqn:R; [reflexivity|].
    rewrite (float_of_out_of_range _ _ R). discriminate.
  - destruct (in_float_range x 0) eqn:R; [reflexivity|].
    rewrite (float_of_out_of_range _ _ R). discriminate.
  - destruct (in_float_range y 0) eqn:R; [reflexivity|].
    rewrite (float_of_out_of_range _ _ R). discriminate.
Qed.

Lemma prices_ok d :
  prices_shape d = true ->
  exists mn mx avg,
    extract_prices (VDict d) = Ok (mn, mx) /\ average_of mn mx = Ok avg /\
    (lookup "priceRanges" d = None -> mn = VNone /\ mx = VNone /\ avg = VNone).
Proof.
  unfold prices_shape, extract_prices, average_of. simpl.
  destruct (lookup "priceRanges" d) as [v|] eqn:L.
  - destruct v as [| | | | |[|[| | | | | |p] l]|]; try discriminate.
    simpl. fold (price p "min") (price p "max").
    destruct (truthy (price p "min") && truthy (price p "max")) eqn:T.
    + intros H. destruct (averageable_average _ _ H) as (avg & Havg).
      exists (price p "min"), (price p "max"), avg.
      rewrite T. split; [reflexivity|]. split; [exact Havg|discriminate].
    + intros _. exists (price p "min"), (price p "max"), VNone.
      rewrite T. split; [reflexivity|]. split; [reflexivity|discriminate].
  - intros _. exists VNone, VNone, VNone. simpl. auto.
Qed.

Lemma prices_shape_of d mn mx avg :
  extract_prices (VDict d) = Ok (mn, mx) -> average_of mn mx = Ok avg ->
  prices_shape d = true.
Proof.
  unfold prices_shape, extract_prices, average_of. simpl.
  destruct (lookup "priceRanges" d) as [v|] eqn:L; [|reflexivity].
  destruct v as [| | | |s|[|[| | | |s| |p] l]|]; simpl; try discriminate.
  - destruct s; discriminate.
  - fold (price p "min") (price p "max"). intros [= <- <-].
    destruct (truthy (price p "min") && truthy (price p "max")); [|reflexivity].
    apply average_averageable.
Qed.

Lemma venue_ok d :
  venues_shape d = true ->
  exists vd,
    venue0 (VDict d) = Ok (VDict vd) /\
    absent_or_dict (lookup "city" vd) = true /\
    absent_or_dict (lookup "country" vd) = true /\
    (sub (lookup "_embedded" d) "venues" = None -> vd = []).
Proof.
  unfold venues_shape, venue0, get2. simpl.
  destruct (lookup "_embedded" d) as [[| | | | | |e]|]; simpl; try discriminate.
  - destruct (lookup "venues" e) as [v|].
    + destruct v as [| | | | |[|[| | | | | |vd] l]|]; try discriminate.
      simpl. intros H. apply andb_true_iff in H. destruct H.
      exists vd. repeat split; auto. discriminate.
    + intros _. exists []. simpl. auto.
  - intros _. exists []. simpl. auto.
Qed.

Lemma venues_shape_of d v a b c :
  venue0 (VDict d) = Ok v ->
  py_get v "id" (VStr "N/A") = Ok a ->
  get2 v "city" "name" VNone = Ok b ->
  get2 v "country" "name" VNone = Ok c ->
  venues_shape d = true.
Proof.
  unfold venues_shape, venue0, get2. simpl. intros Hv Ha Hb Hc.
  destruct v as [| | | | | |vd]; try discriminate. clear Ha. simpl in Hb, Hc.
  assert (Hshape : absent_or_dict (lookup "city" vd) &&
                   absent_or_dict (lookup "country" vd) = true).
  { destruct (lookup "city" vd) as [[]|]; try discriminate;
      destruct (lookup "country" vd) as [[]|]; try discriminate; reflexivity. }
  clear Hb Hc.
  destruct (lookup "_embedded" d) as [[| | | | | |e]|]; simpl in *;
    try discriminate; [|reflexivity].
  destruct (lookup "venues" e) as [u|]; [|reflexivity].
  destruct u as [| | | |s|[|u l]|]; simpl in Hv; try discriminate.
  - destruct s; discriminate.
  - injection Hv as ->. exact Hshape.
Qed.

Lemma presale_ok d :
  absent_or_dict (lookup "sales" d) = true ->
  absent_or_first_dict (sub (lookup "sales" d) "presale") = true ->
  exists pd,
    presale0 (VDict d) = Ok (VDict pd) /\
    (sub (lookup "sales" d) "presale" = None -> pd = []).
Proof.
  unfold presale0, get2. simpl.
  destruct (lookup "sales" d) as [[| | | | | |s]|]; simpl; try discriminate.
  - intros _. destruct (lookup "presale" s) as [v|].
    + destruct v as [| | | | |[|[| | | | | |pd] l]|]; try discriminate.
      intros _. exists pd. split; [reflexivity | discriminate].
    + intros _. exists []. auto.
  - intros _ _. exists []. auto.
Qed.

Lemma presale_shape_of d p a :
  presale0 (VDict d) = Ok p ->
  py_get p "startDateTime" VNone = Ok a ->
  absent_or_first_dict (sub (lookup "sales" d) "presale") = true.
Proof.
  unfold presale0, get2. simpl. intros Hp Ha.
  destruct p as [| | | | | |pd]; try discriminate. clear Ha.
  destruct (lookup "sales" d) as [[| | | | | |s]|]; simpl in *;
    try discriminate; [|reflexivity].
  destruct (lookup "presale" s) as [u|]; [|reflexivity].
  destruct u as [| | | |s0|[|u l]|]; simpl in Hp; try discriminate.
  - destruct s0; discriminate.
  - injection Hp as ->. reflexivity.
Qed.

(** The row of a well-shaped event, field by field. *)
Lemma extract_event_info_closed_form d :
  well_shaped (VDict d) = true ->
  exists mn mx avg vd pd,
    extract_prices (VDict d) = Ok (mn, mx) /\
    average_of mn mx = Ok avg /\
    (lookup "priceRanges" d = None -> mn = VNone /\ mx = VNone /\ avg = VNone) /\
    (sub (lookup "_embedded" d) "venues" = None -> vd = []) /\
    (sub (lookup "sales" d) "presale" = None -> pd = []) /\
    extract_event_info (VDict d)
      = Ok (mkEvent
              (or_none (lookup "name" d))
              (or_none (lookup "id" d))
              (or_none (sub (sub (lookup "dates" d) "start") "localDate"))
              (or_none (sub (sub (lookup "dates" d) "start") "localTime"))
              (or_none (lookup "name" vd))
              (match lookup "id" vd with Some x => x | None => VStr "N/A" end)
              (or_none (sub (lookup "city" vd) "name"))
              (or_none (sub (lookup "country" vd) "name"))
              (or_none (sub (sub (lookup "sales" d) "public") "startDateTime"))
              (or_none (sub (sub (lookup "sales" d) "public") "endDateTime"))
              (or_none (lookup "startDateTime" pd))
              (or_none (lookup "endDateTime" pd))
              mn mx avg).
Proof.
  unfold well_shaped, dates_shape, sales_shape. rewrite !andb_true_iff.
  intros [[[Hp Hv] [Hd1 Hd2]] [[Hs1 Hs2] Hs3]].
  destruct (prices_ok d Hp) as (mn & mx & avg & Hmm & Havg & Hpd).
  destruct (venue_ok d Hv) as (vd & Hvd & Hcity & Hcountry & Hvn).
  destruct (presale_ok d Hs1 Hs3) as (pd & Hpre & Hpn).
  exists mn, mx, avg, vd, pd. repeat (split; [assumption|]).
  unfold extract_event_info. rewrite Hmm. cbn [bind fst snd]. rewrite Havg.
  cbn [bind]. rewrite Hvd, Hpre. cbn [bind].
  rewrite !(get3_value d "dates" "start") by assumption.
  rewrite !(get3_value d "sales" "public") by assumption.
  rewrite !py_get_dict. cbn [bind].
  rewrite (get2_value vd "city" "name") by assumption.
  rewrite (get2_value vd "country" "name") by assumption.
  reflexivity.
Qed.

Lemma extract_event_info_shape event row :
  extract_event_info event = Ok row -> well_shaped event = true.
Proof.
  unfold extract_event_info. intros H.
  bind_inv H as mm Hmm. destruct mm as [mn mx]. cbn [fst snd] in H.
  bind_inv H as avg Havg.
  bind_inv H as venue_id Hvid. bind_inv Hvid as v Hv.
  bind_inv H as name Hname.
  destruct event as [| | | | | |d]; try discriminate.
  bind_inv H as id Hid.
  bind_inv H as start_date Hsd. bind_inv H as start_time Hst.
  bind_inv H as venue Hvenue.
  bind_inv H as city Hcity. bind_inv Hcity as v1 Hv1.
  bind_inv H as country Hcountry. bind_inv Hcountry as v2 Hv2.
  bind_inv H as public_start Hps. bind_inv H as public_end Hpe.
  bind_inv H as presale_start Hpre. bind_inv Hpre as p Hp.
  assert (v1 = v) by congruence. assert (v2 = v) by congruence. subst v1 v2.
  apply get3_shape in Hsd, Hps. destruct Hsd as [Hd1 Hd2], Hps as [Hs1 Hs2].
  unfold well_shaped, dates_shape, sales_shape. rewrite !andb_true_iff.
  repeat split; try assumption.
  - eapply prices_shape_of; eauto.
  - eapply venues_shape_of; eauto.
  - eapply presale_shape_of; eauto.
Qed.

(** C3, as the code has it.  [extract_event_info] returns a row exactly
    for the well-shaped events: those in which every key on an extraction
    path is absent or holds what the path expects, and in which the [min]
    and [max] of the first price range, when both are true, can be
    averaged (two numbers, of which an integer that is turned into a float
    is within the range of a float: two floats always can, two integers
    whose sum is below 2^53 can, two prices of 10^400 cannot).  In that
    row a missing [priceRanges] gives null prices and a null average, a
    missing venue list gives a null venue, city and country and the venue
    id "N/A", and missing [dates], [start], [sales], [public] or [presale]
    give null dates and sale windows. *)
Theorem missing_paths_degrade_to_defaults :
  forall event,
    (well_shaped event = true <-> succeeds (extract_event_info event)) /\
    ((forall a b, Z.abs (a + b) < 2 ^ 53 ->
                  averageable (VInt a) (VInt b) = true) /\
     (forall x y, averageable (VFloat x) (VFloat y) = true) /\
     averageable (VInt (10 ^ 400)) (VInt (10 ^ 400)) = false) /\
    (forall d row,
        event = VDict d -> extract_event_info event = Ok row ->
        (lookup "priceRanges" d = None ->
         e_Min_Price row = VNone /\ e_Max_Price row = VNone /\
         e_Average_Price row = VNone) /\
        (sub (lookup "_embedded" d) "venues" = None ->
         e_Venue row = VNone /\ e_Venue_ID row = VStr "N/A" /\
         e_City row = VNone /\ e_Country row = VNone) /\
        (sub (lookup "dates" d) "start" = None ->
         e_Start_Date row = VNone /\ e_Start_Time row = VNone) /\
        (sub (lookup "sales" d) "public" = None ->
         e_publicsale_start row = VNone /\ e_publicsale_end row = VNone) /\
        (sub (lookup "sales" d) "presale" = None ->
         e_presale_start row = VNone /\ e_presale_end row = VNone)).
Proof.
  intros event. split; [|split].
  - split.
    + destruct event as [| | | | | |d]; try discriminate. intros H.
      destruct (extract_event_info_closed_form d H)
        as (mn & mx & avg & vd & pd & _ & _ & _ & _ & _ & E).
      eexists. exact E.
    + intros (row & H). eapply extract_event_info_shape; eauto.
  - split; [|split].
    + intros a b H. apply small_integers_fit; [exact H | lia].
    + reflexivity.
    + vm_compute. reflexivity.
  - intros d row -> Hrow.
    pose proof (extract_event_info_shape _ _ Hrow) as Hshape.
    destruct (extract_event_info_closed_form d Hshape)
      as (mn & mx & avg & vd & pd & _ & _ & Hp & Hv & Hpre & E).
    rewrite E in Hrow. injection Hrow as <-. cbn.
    split; [exact Hp|].
    split; [intros Hn; rewrite (Hv Hn); cbn; auto|].
    split; [intros ->; cbn; auto|].
    split; [intros ->; cbn; auto|].
    intros Hn; rewrite (Hpre Hn); cbn; auto.
Qed.

(** C3 on the event [{}] of the test suite: every path is missing. *)
Lemma missing_paths_degrade_to_defaults_witness :
  succeeds (extract_event_info (VDict [])) /\
  (e_Venue blank_event_row = VNone /\
   e_Venue_ID blank_event_row = VStr "N/A" /\
   e_City blank_event_row = VNone /\ e_Country blank_event_row = VNone).
Proof.
  destruct (missing_paths_degrade_to_defaults (VDict [])) as (Hiff & _ & Hdef).
  split.
  - apply (proj1 Hiff). reflexivity.
  - destruct (Hdef [] blank_event_row eq_refl eq_refl)
      as (_ & Hvenue & _).
    apply Hvenue. reflexivity.
Defined.

(** C3 as stated fails: an event whose [priceRanges] or [venues] list is
    empty, whose [dates] is null, or whose two prices are 10^400, makes
    the flattening raise, and [get_performer_events_1] then returns the
    empty table for the whole reply. *)
Lemma some_event_shapes_fail :
  extract_event_info (VDict [("priceRanges", VList [])]) = Raise IndexError /\
  extract_event_info huge_event = Raise OverflowError /\
  extract_event_info (VDict [("_embedded", VDict [("venues", VList [])])])
  = Raise IndexError /\
  extract_event_info (VDict [("dates", VNone)]) = Raise AttributeError /\
  fst (get_performer_events_1
         (always (ok_response
                    (events_payload [VDict []; VDict [("priceRanges", VList [])]])))
         "attraction_id" "api_key" 5 fresh)
  = Ok ([], Some [Lit "Other error occurred: "; Exc IndexError]).
Proof.
  repeat split.
Qed.

(** * Further properties *)

(** ** Attempts and back-off *)

Lemma repeat_shift {A} (x : A) n l :
  (repeat x n ++ x :: l = repeat x (S n) ++ l)%list.
Proof.
  induction n as [|n IH]; simpl; [reflexivity|]. now rewrite IH.
Qed.

Lemma added_step req d n k w w1 w' :
  sent w1 = req :: sent w -> slept w1 = d :: slept w ->
  added req (d * 2) n k w1 w' ->
  added req d (S n) (S k) w w'.
Proof.
  unfold added. intros Hs Hd [Hs' Hd']. rewrite Hs in Hs'. rewrite Hd in Hd'.
  split.
  - now rewrite Hs', repeat_shift.
  - rewrite Hd'. simpl. now rewrite <- app_assoc.
Qed.

Lemma added_one req d w :
  added req d 1 0 w (mkWorld (req :: sent w) (slept w)).
Proof. split; reflexivity. Qed.

Lemma find_loop_added env link attempts d resp w ex w' :
  find_loop env link attempts d resp w = (ex, w') ->
  exists n k,
    (n <= length attempts)%nat /\ (k <= n)%nat /\
    added (mkRequest link []) d n k w w'.
Proof.
  revert d resp w. induction attempts as [|a rest IH]; intros d resp w; simpl.
  - intros [= <- <-]. exists O, O. repeat split; auto.
  - set (req := mkRequest link []).
    set (w1 := mkWorld (req :: sent w) (slept w)).
    assert (Hrec : forall resp',
               find_loop env link rest (d * 2) resp' (sleep d w1) = (ex, w') ->
               exists n k, (n <= S (length rest))%nat /\ (k <= n)%nat /\
                           added req d n k w w').
    { intros resp' H. destruct (IH _ _ _ H) as (n & k & Hn & Hk & Ha).
      exists (S n), (S k). split; [lia|]. split; [lia|].
      eapply added_step; [| |exact Ha]; reflexivity. }
    assert (Hone : forall ex0, (ex0, w1) = (ex, w') ->
               exists n k, (n <= S (length rest))%nat /\ (k <= n)%nat /\
                           added req d n k w w').
    { intros ex0 H. injection H as _ <-. exists 1%nat, O.
      split; [lia|]. split; [lia|]. apply added_one. }
    destruct (env (length (sent w)) req) as [r0|e].
    + destruct (status_code r0 =? 429); [apply Hrec|].
      destruct (http_error r0); [|apply Hone].
      destruct (a =? _); [apply Hone|apply Hrec].
    + destruct (is_RequestException e); [|apply Hone].
      destruct (a =? _); [apply Hone|apply Hrec].
Qed.

Lemma events_loop_added env link m attempts d w res w' :
  events_loop env link m attempts d w = (res, w') ->
  exists n k,
    (n <= length attempts)%nat /\ (k <= n)%nat /\
    added (mkRequest link []) d n k w w'.
Proof.
  revert d w. induction attempts as [|a rest IH]; intros d w; simpl.
  - intros [= _ <-]. exists O, O. repeat split; auto.
  - set (req := mkRequest link []).
    set (w1 := mkWorld (req :: sent w) (slept w)).
    assert (Hone : forall res0, (res0, w1) = (res, w') ->
               exists n k, (n <= S (length rest))%nat /\ (k <= n)%nat /\
                           added req d n k w w').
    { intros res0 H. injection H as _ <-. exists 1%nat, O.
      split; [lia|]. split; [lia|]. apply added_one. }
    destruct (env (length (sent w)) req) as [r|e]; [|apply Hone].
    destruct (status_code r =? 429).
    + destruct (a <? m - 1); [|apply Hone].
      intros H. destruct (IH _ _ H) as (n & k & Hn & Hk & Ha).
      exists (S n), (S k). split; [lia|]. split; [lia|].
      eapply added_step; [| |exact Ha]; reflexivity.
    + destruct (process_events r); apply Hone.
Qed.

Lemma filtered_loop_added env req attempts d resp w ex w' :
  filtered_loop env req attempts d resp w = (ex, w') ->
  exists n k,
    (n <= length attempts)%nat /\ (k <= n)%nat /\ added req d n k w w'.
Proof.
  revert d resp w. induction attempts as [|a rest IH]; intros d resp w; simpl.
  - intros [= <- <-]. exists O, O. repeat split; auto.
  - set (w1 := mkWorld (req :: sent w) (slept w)).
    assert (Hrec : forall resp',
               filtered_loop env req rest (d * 2) resp' (sleep d w1) = (ex, w') ->
               exists n k, (n <= S (length rest))%nat /\ (k <= n)%nat /\
                           added req d n k w w').
    { intros resp' H. destruct (IH _ _ _ H) as (n & k & Hn & Hk & Ha).
      exists (S n), (S k). split; [lia|]. split; [lia|].
      eapply added_step; [| |exact Ha]; reflexivity. }
    assert (Hone : forall ex0, (ex0, w1) = (ex, w') ->
               exists n k, (n <= S (length rest))%nat /\ (k <= n)%nat /\
                           added req d n k w w').
    { intros ex0 H. injection H as _ <-. exists 1%nat, O.
      split; [lia|]. split; [lia|]. apply added_one. }
    destruct (env (length (sent w)) req) as [r0|e].
    + destruct (http_error r0); [|apply Hone].
      destruct (is_true r0 && _); [apply Hrec|apply Hone].
    + destruct (is_HTTPError e).
      * destruct (rate_limited resp); [apply Hrec|apply Hone].
      * destruct (is_RequestException e); [|apply Hone].
        destruct (a =? _); [apply Hone|apply Hrec].
Qed.

Lemma range_length m : length (range m) = Z.to_nat m.
Proof. unfold range. now rewrite length_map, length_seq. Qed.

Lemma added_none req d w : added req d 0 0 w w.
Proof. split; reflexivity. Qed.

(** X1.  Whatever the network does, a call of [find_attraction_info] or
    of [fetch_filtered_events] sends its one request at most five times,
    and a call of [get_performer_events_1] at most [max_retries] times;
    nothing else is sent.  The delays slept are the doubling sequence 1,
    2, 4, ... in that order, never more of them than requests sent. *)
Theorem at_most_five_requests_with_doubling_delays :
  forall env,
    (forall identifier identifier_type api_key c w r c' w',
        find_attraction_info env identifier identifier_type api_key c w
          = (r, c', w') ->
        exists n k,
          (n <= 5)%nat /\ (k <= n)%nat /\
          added (find_request identifier identifier_type api_key) 1 n k w w') /\
    (forall attraction_id api_key max_retries w r w',
        get_performer_events_1 env attraction_id api_key max_retries w = (r, w') ->
        exists n k,
          (n <= Z.to_nat max_retries)%nat /\ (k <= n)%nat /\
          added (events_request attraction_id api_key) 1 n k w w') /\
    (forall api_key start_date end_date city state_code country_code w r w',
        fetch_filtered_events env api_key start_date end_date city state_code
          country_code w = (r, w') ->
        exists n k,
          (n <= 5)%nat /\ (k <= n)%nat /\
          added (mkRequest base_url
                   (filter_params api_key start_date end_date city state_code
                      country_code)) 1 n k w w').
Proof.
  intros env. split; [|split].
  - intros i t k c w r c' w'. unfold find_attraction_info.
    destruct (cache_lookup (i, t, k) c).
    { intros [= _ _ <-]. exists O, O. split; [lia|]. split; [lia|].
      apply added_none. }
    assert (Hbody : forall r0 w0,
               find_attraction_info_body env i t k w = (r0, w0) ->
               exists n j, (n <= 5)%nat /\ (j <= n)%nat /\
                           added (find_request i t k) 1 n j w w0).
    { unfold find_attraction_info_body. intros r0 w0.
      destruct (negb _).
      { intros [= _ <-]. exists O, O. split; [lia|]. split; [lia|].
        apply added_none. }
      destruct (String.eqb i "").
      { intros [= _ <-]. exists O, O. split; [lia|]. split; [lia|].
        apply added_none. }
      destruct (find_loop _ _ _ _ _ _) as [ex w1] eqn:L.
      apply find_loop_added in L. rewrite range_length in L.
      intros H. assert (w1 = w0); [|subst; exact L].
      destruct ex as [[r1|]|r1|e]; try congruence.
      destruct (negb _); congruence. }
    destruct (find_attraction_info_body env i t k w) as [[r0|e] w0] eqn:B;
      intros H; assert (w0 = w') by congruence; subst; eapply Hbody; eauto.
  - intros a k m w r w'. unfold get_performer_events_1.
    destruct (events_loop _ _ _ _ _ _) as [res w1] eqn:L.
    apply events_loop_added in L. rewrite range_length in L.
    intros [= _ <-]. exact L.
  - intros k sd ed ci st co w r w'. unfold fetch_filtered_events.
    destruct (filtered_loop _ _ _ _ _ _) as [ex w1] eqn:L.
    apply filtered_loop_added in L. rewrite range_length in L.
    intros H. assert (w1 = w'); [|subst; exact L].
    destruct ex as [[r1|]|r1|e]; try congruence.
    destruct (negb _); congruence.
Qed.

(** ** The retry loop of [find_attraction_info] *)

Lemma backoff_newest d k :
  backoff d (S k) = (d * 2 ^ Z.of_nat k) :: backoff d k.
Proof.
  revert d. induction k as [|k IH]; intros d.
  - simpl. now rewrite Z.mul_1_r.
  - change (backoff d (S (S k))) with (backoff (d * 2) (S k) ++ [d])%list.
    rewrite IH. simpl app. f_equal.
    rewrite Nat2Z.inj_succ, Z.pow_succ_r by lia. ring.
Qed.

Lemma attempts_cons a :
  (a < 5)%nat ->
  map Z.of_nat (seq a (5 - a)) = Z.of_nat a :: map Z.of_nat (seq (S a) (5 - S a)).
Proof.
  intros H. replace (5 - a)%nat with (S (5 - S a)) by lia. reflexivity.
Qed.

Lemma reply_at_next env w d req i :
  reply_at env (sleep d (mkWorld (req :: sent w) (slept w))) i req
  = reply_at env w (S i) req.
Proof.
  unfold reply_at. simpl. f_equal. lia.
Qed.

(** Replies that make the loop try again are passed over one by one,
    each followed by the next delay. *)
Lemma find_loop_skip env link k : forall a d resp w,
  (a + k <= 4)%nat ->
  (forall i, (i < k)%nat ->
             find_retries (reply_at env w i (mkRequest link [])) = true) ->
  exists resp' w',
    find_loop env link (map Z.of_nat (seq a (5 - a))) d resp w
    = find_loop env link (map Z.of_nat (seq (a + k) (5 - (a + k))))
        (d * 2 ^ Z.of_nat k) resp' w' /\
    added (mkRequest link []) d k k w w' /\
    (forall i, reply_at env w' i (mkRequest link [])
               = reply_at env w (k + i) (mkRequest link [])).
Proof.
  induction k as [|k IH]; intros a d resp w Ha Hr.
  - exists resp, w. rewrite Nat.add_0_r, Z.mul_1_r.
    split; [reflexivity|]. split; [apply added_none | reflexivity].
  - set (req := mkRequest link []) in *.
    set (w2 := sleep d (mkWorld (req :: sent w) (slept w))).
    assert (Hnext : forall resp1, exists resp' w',
               find_loop env link (map Z.of_nat (seq (S a) (5 - S a))) (d * 2)
                 resp1 w2
               = find_loop env link
                   (map Z.of_nat (seq (a + S k) (5 - (a + S k))))
                   (d * 2 ^ Z.of_nat (S k)) resp' w' /\
               added req d (S k) (S k) w w' /\
               (forall i, reply_at env w' i req = reply_at env w (S k + i) req)).
    { intros resp1.
      destruct (IH (S a) (d * 2) resp1 w2) as (resp' & w' & E & Hadd & Hrep).
      - lia.
      - intros i Hi. unfold w2. rewrite reply_at_next. apply Hr. lia.
      - exists resp', w'. split; [|split].
        + rewrite E. replace (S a + k)%nat with (a + S k)%nat by lia.
          f_equal. rewrite Nat2Z.inj_succ, Z.pow_succ_r by lia. ring.
        + eapply added_step; [| |exact Hadd]; reflexivity.
        + intros i. rewrite Hrep. unfold w2. rewrite reply_at_next.
          f_equal. }
    rewrite attempts_cons by lia. cbn [find_loop]. unfold send.
    pose proof (Hr O ltac:(lia)) as H0. unfold reply_at in H0.
    rewrite Nat.add_0_r in H0. fold req.
    assert (Ha4 : (Z.of_nat a =? 5 - 1) = false) by (apply Z.eqb_neq; lia).
    destruct (env (length (sent w)) req) as [r0|e];
      unfold find_retries, find_failure in H0; cbn [is_429] in H0.
    + destruct (status_code r0 =? 429); [apply Hnext|].
      destruct (http_error r0); [|discriminate H0].
      rewrite Ha4. apply Hnext.
    + destruct (is_RequestException e); [|discriminate H0].
      rewrite Ha4. apply Hnext.
Qed.

Lemma find_body_loop env i t k w :
  t = "name" \/ t = "id" -> i <> "" ->
  find_attraction_info_body env i t k w
  = match find_loop env (find_link i t k) (map Z.of_nat (seq 0 (5 - 0))) 1 None w with
    | (Return r, w') => (Ok r, w')
    | (Throw e, w') => (Raise e, w')
    | (Leave None, w') => (Raise UnboundLocalError, w')
    | (Leave (Some r), w') =>
        if negb (status_code r =? 200)
        then (Ok ([], Some [Lit "Error fetching data: Status code ";
                            Int (status_code r)]), w')
        else (data <- json r ;; process_attractions i t data, w')
    end.
Proof.
  intros Ht Hi. unfold find_attraction_info_body.
  replace (negb (String.eqb t "name" || String.eqb t "id")) with false
    by (destruct Ht as [-> | ->]; reflexivity).
  apply String.eqb_neq in Hi. rewrite Hi. reflexivity.
Qed.

(** After [k] replies that call for a retry, the loop stands at attempt
    [k] with the world [w']. *)
Lemma find_loop_at env link k w :
  (k <= 4)%nat ->
  (forall i, (i < k)%nat ->
             find_retries (reply_at env w i (mkRequest link [])) = true) ->
  exists resp' w',
    find_loop env link (map Z.of_nat (seq 0 (5 - 0))) 1 None w
    = find_loop env link
        (Z.of_nat k :: map Z.of_nat (seq (S k) (5 - S k)))
        (2 ^ Z.of_nat k) resp' w' /\
    added (mkRequest link []) 1 k k w w' /\
    env (length (sent w')) (mkRequest link [])
    = reply_at env w k (mkRequest link []).
Proof.
  intros Hk Hr.
  destruct (find_loop_skip env link k O 1 None w Hk Hr)
    as (resp' & w' & E & Hadd & Hrep).
  exists resp', w'. split; [|split; [exact Hadd|]].
  - rewrite E. cbn [Nat.add]. rewrite attempts_cons by lia.
    now rewrite Z.mul_1_l.
  - specialize (Hrep O). unfold reply_at in Hrep at 1.
    rewrite !Nat.add_0_r in Hrep. exact Hrep.
Qed.

Lemma added_last req d k j w w' :
  added req d k j w w' ->
  added req d (S k) j w (mkWorld (req :: sent w') (slept w')).
Proof.
  unfold added. simpl. intros [-> ->]. auto.
Qed.

Lemma added_last_slept req k w w' :
  added req 1 k k w w' ->
  added req 1 (S k) (S k) w
    (sleep (2 ^ Z.of_nat k) (mkWorld (req :: sent w') (slept w'))).
Proof.
  unfold added, sleep. cbn [sent slept]. intros [-> ->].
  split; [reflexivity|].
  rewrite (backoff_newest 1 k), Z.mul_1_l. reflexivity.
Qed.

(** X2.  [find_attraction_info], not served from its cache, passes over
    every 429, every HTTP error status and every [RequestException], and
    returns what the first reply with status 200 holds, provided that it
    is among the first five replies: after [k] such replies it has sent
    [k + 1] requests and slept 1, 2, ..., 2^(k-1) seconds. *)
Theorem find_returns_the_first_200_within_five_attempts :
  forall env identifier identifier_type api_key c w k r data res,
    let req := find_request identifier identifier_type api_key in
    identifier_type = "name" \/ identifier_type = "id" ->
    identifier <> "" ->
    cache_lookup (identifier, identifier_type, api_key) c = None ->
    (k < 5)%nat ->
    (forall i, (i < k)%nat -> find_retries (reply_at env w i req) = true) ->
    reply_at env w k req = Responds r ->
    status_code r = 200 -> http_error r = None -> body r = Some data ->
    process_attractions identifier identifier_type data = Ok res ->
    exists c' w',
      find_attraction_info env identifier identifier_type api_key c w
        = (Ok res, c', w') /\
      added req 1 (S k) k w w'.
Proof.
  intros env i t key c w k r data res req Ht Hi Hc Hk Hr Hrep S2 H2 B P.
  unfold find_request in req.
  destruct (find_loop_at env (find_link i t key) k w ltac:(lia) Hr)
    as (resp' & w' & E & Hadd & Hat).
  fold req in Hat, Hadd. rewrite Hrep in Hat.
  unfold find_attraction_info. rewrite Hc.
  rewrite (find_body_loop env i t key w Ht Hi), E.
  cbn [find_loop]. unfold send. fold req. rewrite Hat, S2, H2.
  change (200 =? 429) with false. cbv iota beta.
  rewrite S2. change (negb (200 =? 200)) with false. cbv iota.
  unfold json. rewrite B. cbn [bind]. rewrite P.
  eexists. eexists. split; [reflexivity|].
  apply added_last. exact Hadd.
Qed.

(** X3.  When the first four replies all call for a retry,
    [find_attraction_info] makes its fifth and last attempt.  If that one
    fails too (an HTTP error status or a [RequestException]) the call
    returns the empty table with "Failed to fetch data after 5 attempts.
    Error: ..." naming the last exception, having slept 1, 2, 4 and 8
    seconds; if it is another 429 the call still sleeps 16 seconds and
    then returns the empty table with "Error fetching data: Status code
    429". *)
Theorem find_gives_up_after_five_attempts :
  forall env identifier identifier_type api_key c w,
    let req := find_request identifier identifier_type api_key in
    identifier_type = "name" \/ identifier_type = "id" ->
    identifier <> "" ->
    cache_lookup (identifier, identifier_type, api_key) c = None ->
    (forall i, (i < 4)%nat -> find_retries (reply_at env w i req) = true) ->
    (forall e,
        find_failure (reply_at env w 4 req) = Some e ->
        exists c' w',
          find_attraction_info env identifier identifier_type api_key c w
            = (Ok ([], Some [Lit "Failed to fetch data after "; Int 5;
                             Lit " attempts. Error: "; Exc e]), c', w') /\
          added req 1 5 4 w w') /\
    (forall r,
        reply_at env w 4 req = Responds r -> status_code r = 429 ->
        exists c' w',
          find_attraction_info env identifier identifier_type api_key c w
            = (Ok ([], Some [Lit "Error fetching data: Status code "; Int 429]),
               c', w') /\
          added req 1 5 5 w w').
Proof.
  intros env i t key c w req Ht Hi Hc Hr. unfold find_request in req.
  destruct (find_loop_at env (find_link i t key) 4 w ltac:(lia) Hr)
    as (resp' & w' & E & Hadd & Hat).
  fold req in Hat, Hadd.
  unfold find_attraction_info. rewrite Hc.
  rewrite (find_body_loop env i t key w Ht Hi), E.
  cbn [find_loop seq map Nat.sub]. unfold send. fold req. rewrite Hat.
  change (Z.of_nat 4 =? 5 - 1) with true. cbv iota.
  split.
  - intros e He. unfold find_failure in He.
    destruct (reply_at env w 4 req) as [r0|e0].
    + destruct (status_code r0 =? 429); [discriminate|].
      destruct (http_error r0); [|discriminate]. injection He as <-.
      eexists. eexists. split; [reflexivity|]. apply added_last. exact Hadd.
    + destruct (is_RequestException e0); [|discriminate]. injection He as <-.
      eexists. eexists. split; [reflexivity|]. apply added_last. exact Hadd.
  - intros r -> S1. rewrite S1. change (429 =? 429) with true. cbv iota.
    rewrite S1. change (negb (429 =? 200)) with true. cbv iota.
    eexists. eexists. split; [reflexivity|].
    apply (added_last_slept req 4 w w' Hadd).
Qed.

(** X4.  The first reply of [find_attraction_info] that does not call
    for a retry decides the call.  A status other than 200 (and 429)
    that [raise_for_status()] accepts is reported as "Error fetching
    data: Status code <status>"; an exception of [requests.get] that is no
    [RequestException] leaves the call at once; and when the body of a
    status 200 reply is no JSON, or its flattening raises, that exception
    leaves the call.  A call that raises stores nothing in the cache. *)
Theorem find_first_final_reply_decides :
  forall env identifier identifier_type api_key c w k,
    let req := find_request identifier identifier_type api_key in
    identifier_type = "name" \/ identifier_type = "id" ->
    identifier <> "" ->
    cache_lookup (identifier, identifier_type, api_key) c = None ->
    (k < 5)%nat ->
    (forall i, (i < k)%nat -> find_retries (reply_at env w i req) = true) ->
    (forall r,
        reply_at env w k req = Responds r ->
        status_code r <> 429 -> status_code r <> 200 -> http_error r = None ->
        exists c' w',
          find_attraction_info env identifier identifier_type api_key c w
            = (Ok ([], Some [Lit "Error fetching data: Status code ";
                             Int (status_code r)]), c', w') /\
          added req 1 (S k) k w w') /\
    (forall e,
        reply_at env w k req = Fails e -> is_RequestException e = false ->
        exists w',
          find_attraction_info env identifier identifier_type api_key c w
            = (Raise e, c, w') /\
          added req 1 (S k) k w w') /\
    (forall r e,
        reply_at env w k req = Responds r ->
        status_code r = 200 -> http_error r = None ->
        (data <- json r ;; process_attractions identifier identifier_type data)
          = Raise e ->
        exists w',
          find_attraction_info env identifier identifier_type api_key c w
            = (Raise e, c, w') /\
          added req 1 (S k) k w w').
Proof.
  intros env i t key c w k req Ht Hi Hc Hk Hr. unfold find_request in req.
  destruct (find_loop_at env (find_link i t key) k w ltac:(lia) Hr)
    as (resp' & w' & E & Hadd & Hat).
  fold req in Hat, Hadd.
  unfold find_attraction_info. rewrite Hc.
  rewrite (find_body_loop env i t key w Ht Hi), E.
  cbn [find_loop]. unfold send. fold req. rewrite Hat.
  split; [|split].
  - intros r -> S1 S2 H2. apply Z.eqb_neq in S1, S2. rewrite S1, H2, S2.
    cbn [negb]. eexists. eexists. split; [reflexivity|].
    apply added_last. exact Hadd.
  - intros e -> He. rewrite He.
    eexists. split; [reflexivity|]. apply added_last. exact Hadd.
  - intros r e -> S2 H2 P. rewrite S2, H2.
    change (200 =? 429) with false. cbv iota beta.
    rewrite S2. change (negb (200 =? 200)) with false. cbv iota.
    rewrite P. eexists. split; [reflexivity|]. apply added_last. exact Hadd.
Qed.

(** ** The retry loop of [get_performer_events_1] *)

Lemma seq_cons a n :
  (a < n)%nat ->
  map Z.of_nat (seq a (n - a)) = Z.of_nat a :: map Z.of_nat (seq (S a) (n - S a)).
Proof.
  intros H. replace (n - a)%nat with (S (n - S a)) by lia. reflexivity.
Qed.

Lemma events_loop_skip env link m k : forall a d w,
  Z.of_nat (a + k) < m ->
  (forall i, (i < k)%nat -> is_429 (reply_at env w i (mkRequest link [])) = true) ->
  exists w',
    events_loop env link m (map Z.of_nat (seq a (Z.to_nat m - a))) d w
    = events_loop env link m
        (map Z.of_nat (seq (a + k) (Z.to_nat m - (a + k))))
        (d * 2 ^ Z.of_nat k) w' /\
    added (mkRequest link []) d k k w w' /\
    (forall i, reply_at env w' i (mkRequest link [])
               = reply_at env w (k + i) (mkRequest link [])).
Proof.
  induction k as [|k IH]; intros a d w Ha Hr.
  - exists w. rewrite Nat.add_0_r, Z.mul_1_r.
    split; [reflexivity|]. split; [apply added_none | reflexivity].
  - set (req := mkRequest link []) in *.
    set (w2 := sleep d (mkWorld (req :: sent w) (slept w))).
    destruct (IH (S a) (d * 2) w2) as (w' & E & Hadd & Hrep).
    { lia. }
    { intros i Hi. unfold w2. rewrite reply_at_next. apply Hr. lia. }
    exists w'. split; [|split].
    + rewrite seq_cons by lia. cbn [events_loop]. unfold send. fold req.
      pose proof (Hr O ltac:(lia)) as H0. unfold reply_at in H0.
      rewrite Nat.add_0_r in H0.
      destruct (env (length (sent w)) req) as [r0|e]; [|discriminate H0].
      cbn [is_429] in H0. rewrite H0.
      replace (Z.of_nat a <? m - 1) with true by (symmetry; apply Z.ltb_lt; lia).
      fold w2. rewrite E. replace (S a + k)%nat with (a + S k)%nat by lia.
      f_equal. rewrite Nat2Z.inj_succ, Z.pow_succ_r by lia. ring.
    + eapply added_step; [| |exact Hadd]; reflexivity.
    + intros i. rewrite Hrep. unfold w2. rewrite reply_at_next. f_equal.
Qed.

Lemma events_loop_at env link m k w :
  Z.of_nat k < m ->
  (forall i, (i < k)%nat -> is_429 (reply_at env w i (mkRequest link [])) = true) ->
  exists w',
    events_loop env link m (range m) 1 w
    = events_loop env link m
        (Z.of_nat k :: map Z.of_nat (seq (S k) (Z.to_nat m - S k)))
        (2 ^ Z.of_nat k) w' /\
    added (mkRequest link []) 1 k k w w' /\
    env (length (sent w')) (mkRequest link [])
    = reply_at env w k (mkRequest link []).
Proof.
  intros Hk Hr.
  destruct (events_loop_skip env link m k O 1 w) as (w' & E & Hadd & Hrep);
    [simpl; lia | exact Hr |].
  exists w'. split; [|split; [exact Hadd|]].
  - unfold range. rewrite <- (Nat.sub_0_r (Z.to_nat m)) at 1. rewrite E.
    cbn [Nat.add]. rewrite seq_cons by lia. now rewrite Z.mul_1_l.
  - specialize (Hrep O). unfold reply_at in Hrep at 1.
    rewrite !Nat.add_0_r in Hrep. exact Hrep.
Qed.

(** X5.  [get_performer_events_1] tries again only after a 429.  The
    first reply that is no 429, if it is among the first [max_retries]
    replies, ends the call after [k + 1] requests and [k] delays: an
    exception of [requests.get] or an HTTP error status comes back at
    once as an "... error occurred: ..." envelope, without a retry, and
    any other response is flattened. *)
Theorem performer_events_retries_only_rate_limits :
  forall env attraction_id api_key max_retries w k,
    let req := events_request attraction_id api_key in
    Z.of_nat k < max_retries ->
    (forall i, (i < k)%nat -> is_429 (reply_at env w i req) = true) ->
    is_429 (reply_at env w k req) = false ->
    (exists w',
        get_performer_events_1 env attraction_id api_key max_retries w
          = (Ok (events_outcome (reply_at env w k req)), w') /\
        added req 1 (S k) k w w') /\
    (forall r msg,
        reply_at env w k req = Responds r -> http_error r = Some msg ->
        events_outcome (reply_at env w k req)
          = ([], Some [Lit "HTTP error occurred: "; Exc (HTTPError msg)])) /\
    (forall e,
        reply_at env w k req = Fails e -> is_HTTPError e = false ->
        events_outcome (reply_at env w k req)
          = ([], Some [Lit "Other error occurred: "; Exc e])).
Proof.
  intros env a key m w k req Hk Hr Hn. unfold events_request in req.
  split; [|split].
  - destruct (events_loop_at env (events_url a key) m k w Hk Hr)
      as (w' & E & Hadd & Hat).
    fold req in Hat, Hadd.
    unfold get_performer_events_1. rewrite E.
    cbn [events_loop]. unfold send. fold req. rewrite Hat.
    unfold events_outcome.
    destruct (reply_at env w k req) as [r|e].
    + cbn [is_429] in Hn. rewrite Hn.
      destruct (process_events r); eexists; (split; [reflexivity|]);
        apply added_last; exact Hadd.
    + eexists. split; [reflexivity|]. apply added_last. exact Hadd.
  - intros r msg -> H. unfold events_outcome, process_events. now rewrite H.
  - intros e -> H. unfold events_outcome, events_except. now rewrite H.
Qed.

(** X6.  When each of the [max_retries] replies is a 429,
    [get_performer_events_1] returns the empty table with "Rate limit
    exceeded, try again later." after [max_retries] requests and
    [max_retries - 1] delays; with no attempt allowed it sends nothing and
    returns "Failed to fetch events after retries". *)
Theorem performer_events_rate_limit_exhausted :
  forall env attraction_id api_key max_retries w,
    let req := events_request attraction_id api_key in
    (0 < max_retries ->
     (forall i, (i < Z.to_nat max_retries)%nat ->
                is_429 (reply_at env w i req) = true) ->
     exists w',
       get_performer_events_1 env attraction_id api_key max_retries w
         = (Ok ([], Some [Lit "Rate limit exceeded, try again later."]), w') /\
       added req 1 (Z.to_nat max_retries) (Z.to_nat max_retries - 1) w w') /\
    (max_retries <= 0 ->
     get_performer_events_1 env attraction_id api_key max_retries w
       = (Ok ([], Some [Lit "Failed to fetch events after retries"]), w)).
Proof.
  intros env a key m w req. unfold events_request in req. split.
  - intros Hm Hr.
    destruct (events_loop_at env (events_url a key) m (Z.to_nat m - 1) w)
      as (w' & E & Hadd & Hat); [lia | intros i Hi; apply Hr; lia |].
    fold req in Hat, Hadd.
    unfold get_performer_events_1. rewrite E.
    cbn [events_loop]. unfold send. fold req. rewrite Hat.
    pose proof (Hr (Z.to_nat m - 1)%nat ltac:(lia)) as H0.
    destruct (reply_at env w (Z.to_nat m - 1) req) as [r|e]; [|discriminate H0].
    cbn [is_429] in H0. rewrite H0.
    replace (Z.of_nat (Z.to_nat m - 1) <? m - 1) with false
      by (symmetry; apply Z.ltb_ge; lia).
    eexists. split; [reflexivity|].
    replace (Z.to_nat m) with (S (Z.to_nat m - 1)) at 1 by lia.
    apply added_last. exact Hadd.
  - intros Hm. unfold get_performer_events_1, range.
    replace (Z.to_nat m) with O by lia. reflexivity.
Qed.

(** ** The retry loop of [fetch_filtered_events] *)

Lemma filtered_loop_skip env req k : forall a d resp w,
  (a + k <= 4)%nat ->
  (forall i, (i < k)%nat -> connection_failure (reply_at env w i req) = true) ->
  exists w',
    filtered_loop env req (map Z.of_nat (seq a (5 - a))) d resp w
    = filtered_loop env req (map Z.of_nat (seq (a + k) (5 - (a + k))))
        (d * 2 ^ Z.of_nat k) resp w' /\
    added req d k k w w' /\
    (forall i, reply_at env w' i req = reply_at env w (k + i) req).
Proof.
  induction k as [|k IH]; intros a d resp w Ha Hr.
  - exists w. rewrite Nat.add_0_r, Z.mul_1_r.
    split; [reflexivity|]. split; [apply added_none | reflexivity].
  - set (w2 := sleep d (mkWorld (req :: sent w) (slept w))).
    destruct (IH (S a) (d * 2) resp w2) as (w' & E & Hadd & Hrep).
    { lia. }
    { intros i Hi. unfold w2. rewrite reply_at_next. apply Hr. lia. }
    exists w'. split; [|split].
    + rewrite attempts_cons by lia. cbn [filtered_loop]. unfold send.
      pose proof (Hr O ltac:(lia)) as H0. unfold reply_at in H0.
      rewrite Nat.add_0_r in H0.
      destruct (env (length (sent w)) req) as [r0|e]; [discriminate H0|].
      cbn [connection_failure] in H0. apply andb_true_iff in H0.
      destruct H0 as [HR HH]. apply negb_true_iff in HH. rewrite HH, HR.
      replace (Z.of_nat a =? 5 - 1) with false by (symmetry; apply Z.eqb_neq; lia).
      fold w2. rewrite E. replace (S a + k)%nat with (a + S k)%nat by lia.
      f_equal. rewrite Nat2Z.inj_succ, Z.pow_succ_r by lia. ring.
    + eapply added_step; [| |exact Hadd]; reflexivity.
    + intros i. rewrite Hrep. unfold w2. rewrite reply_at_next. f_equal.
Qed.

Lemma filtered_loop_at env req k w :
  (k <= 4)%nat ->
  (forall i, (i < k)%nat -> connection_failure (reply_at env w i req) = true) ->
  exists w',
    filtered_loop env req (range 5) 1 None w
    = filtered_loop env req
        (Z.of_nat k :: map Z.of_nat (seq (S k) (5 - S k)))
        (2 ^ Z.of_nat k) None w' /\
    added req 1 k k w w' /\
    env (length (sent w')) req = reply_at env w k req.
Proof.
  intros Hk Hr.
  destruct (filtered_loop_skip env req k O 1 None w Hk Hr)
    as (w' & E & Hadd & Hrep).
  exists w'. split; [|split; [exact Hadd|]].
  - change (range 5) with (map Z.of_nat (seq 0 (5 - 0))). rewrite E.
    cbn [Nat.add]. rewrite attempts_cons by lia. now rewrite Z.mul_1_l.
  - specialize (Hrep O). unfold reply_at in Hrep at 1.
    rewrite !Nat.add_0_r in Hrep. exact Hrep.
Qed.

Lemma http_response_error status text b :
  400 <= status < 600 ->
  http_response status text b = mkResponse status (Some text) false b.
Proof.
  intros [H1 H2]. unfold http_response.
  apply Z.leb_le in H1. apply Z.ltb_lt in H2. now rewrite H1, H2.
Qed.

(** X7.  [fetch_filtered_events] never tries again after a
    [requests.Response] with an error status, 429 included: such a
    response is false, so the rate limit branch is not taken, and the
    call returns the empty table with "HTTP error occurred: ..." at once,
    without sleeping for it.  Connection failures before it are retried
    as usual. *)
Theorem fetch_filtered_events_does_not_retry_http_errors :
  forall env api_key start_date end_date city state_code country_code w k
         status text b,
    let req := mkRequest base_url
                 (filter_params api_key start_date end_date city state_code
                    country_code) in
    (k < 5)%nat ->
    (forall i, (i < k)%nat -> connection_failure (reply_at env w i req) = true) ->
    reply_at env w k req = Responds (http_response status text b) ->
    400 <= status < 600 ->
    exists w',
      fetch_filtered_events env api_key start_date end_date city state_code
        country_code w
        = (Ok ([], Some [Lit "HTTP error occurred: "; Exc (HTTPError text)]), w') /\
      added req 1 (S k) k w w'.
Proof.
  intros env key sd ed ci st co w k status text b req Hk Hr Hrep Hs.
  destruct (filtered_loop_at env req k w ltac:(lia) Hr) as (w' & E & Hadd & Hat).
  rewrite Hrep, (http_response_error _ _ _ Hs) in Hat.
  unfold fetch_filtered_events. fold req. rewrite E.
  cbn [filtered_loop]. unfold send. rewrite Hat.
  cbn [http_error is_HTTPError rate_limited is_true andb].
  eexists. split; [reflexivity|]. apply added_last. exact Hadd.
Qed.

(** X8.  When [requests.get] fails five times in a row with a
    [RequestException] that is no [HTTPError], [fetch_filtered_events]
    returns the empty table with "Failed to fetch data after 5 attempts.
    Error: ..." naming the last exception, after five requests and the
    delays 1, 2, 4 and 8. *)
Theorem fetch_filtered_events_gives_up_after_five_failures :
  forall env api_key start_date end_date city state_code country_code w e,
    let req := mkRequest base_url
                 (filter_params api_key start_date end_date city state_code
                    country_code) in
    (forall i, (i < 5)%nat -> connection_failure (reply_at env w i req) = true) ->
    reply_at env w 4 req = Fails e ->
    exists w',
      fetch_filtered_events env api_key start_date end_date city state_code
        country_code w
        = (Ok ([], Some [Lit "Failed to fetch data after "; Int 5;
                         Lit " attempts. Error: "; Exc e]), w') /\
      added req 1 5 4 w w'.
Proof.
  intros env key sd ed ci st co w e req Hr Hrep.
  destruct (filtered_loop_at env req 4 w ltac:(lia)) as (w' & E & Hadd & Hat).
  { intros i Hi. apply Hr. lia. }
  pose proof (Hr 4%nat ltac:(lia)) as H4. rewrite Hrep in H4, Hat.
  cbn [connection_failure] in H4. apply andb_true_iff in H4.
  destruct H4 as [HR HH]. apply negb_true_iff in HH.
  unfold fetch_filtered_events. fold req. rewrite E.
  cbn [filtered_loop]. unfold send. rewrite Hat, HH, HR.
  change (Z.of_nat 4 =? 5 - 1) with true. cbv iota.
  eexists. split; [reflexivity|]. apply added_last. exact Hadd.
Qed.

(** X9.  The first response of [fetch_filtered_events] that
    [raise_for_status()] accepts ends the retries.  With status 200 the
    call gives what the flattening of its body gives, an exception of the
    flattening included; with any other status it returns the empty table
    with "No successful response received from the API.". *)
Theorem fetch_filtered_events_first_accepted_response_decides :
  forall env api_key start_date end_date city state_code country_code w k r,
    let req := mkRequest base_url
                 (filter_params api_key start_date end_date city state_code
                    country_code) in
    (k < 5)%nat ->
    (forall i, (i < k)%nat -> connection_failure (reply_at env w i req) = true) ->
    reply_at env w k req = Responds r ->
    http_error r = None ->
    exists w',
      fetch_filtered_events env api_key start_date end_date city state_code
        country_code w
        = (if status_code r =? 200 then process_filtered r
           else Ok ([], Some no_response), w') /\
      added req 1 (S k) k w w'.
Proof.
  intros env key sd ed ci st co w k r req Hk Hr Hrep H2.
  destruct (filtered_loop_at env req k w ltac:(lia) Hr) as (w' & E & Hadd & Hat).
  rewrite Hrep in Hat.
  unfold fetch_filtered_events. fold req. rewrite E.
  cbn [filtered_loop]. unfold send. rewrite Hat, H2.
  destruct (status_code r =? 200); cbn [negb];
    (eexists; split; [reflexivity|]; apply added_last; exact Hadd).
Qed.

(** ** Flattening one attraction *)

(** X10.  [extract_attraction_info] returns a row exactly for an object
    whose [upcomingEvents], when present, is an object (a null or any
    other value there raises).  The row carries the object's [name] and
    [id], "N/A" for each that is missing, and the two counts of
    [upcomingEvents], 0 for each that is missing. *)
Theorem attraction_rows_and_their_defaults :
  forall attraction,
    (succeeds (extract_attraction_info attraction) <->
     exists d, attraction = VDict d /\
               absent_or_dict (lookup "upcomingEvents" d) = true) /\
    (forall d row,
        attraction = VDict d ->
        extract_attraction_info attraction = Ok row ->
        a_name row = get_or d "name" (VStr "N/A") /\
        a_ID row = get_or d "id" (VStr "N/A") /\
        a_ticketmaster_upcoming row
          = match sub (lookup "upcomingEvents" d) "ticketmaster" with
            | Some v => v
            | None => VInt 0
            end /\
        a_total_upcoming row
          = match sub (lookup "upcomingEvents" d) "_total" with
            | Some v => v
            | None => VInt 0
            end).
Proof.
  intros a. split.
  - split.
    + intros (row & H). destruct a as [| | | | | |d]; try discriminate.
      exists d. split; [reflexivity|].
      unfold extract_attraction_info, get2 in H. simpl in H.
      destruct (lookup "upcomingEvents" d) as [[]|]; try discriminate;
        reflexivity.
    + intros (d & -> & H). now apply extract_attraction_info_total.
  - intros d row -> H. unfold extract_attraction_info, get2, get_or in *.
    simpl in H.
    destruct (lookup "upcomingEvents" d) as [[]|]; try discriminate;
      simpl in H; injection H as <-; simpl; auto.
Qed.

(** ** Flattening one filtered event *)

Lemma venue0_first d :
  absent_or_dict (lookup "_embedded" d) = true ->
  absent_or_first_dict (sub (lookup "_embedded" d) "venues") = true ->
  venue0 (VDict d) = Ok (VDict (first_venue d)).
Proof.
  unfold venue0, get2, first_venue. simpl.
  destruct (lookup "_embedded" d) as [[| | | | | |e]|]; simpl; try discriminate;
    [|reflexivity].
  intros _. destruct (lookup "venues" e) as [v|]; [|reflexivity].
  destruct v as [| | | | |[|[| | | | | |vd] l]|]; try discriminate. reflexivity.
Qed.

Lemma venue0_shape d v k default a :
  venue0 (VDict d) = Ok v -> py_get v k default = Ok a ->
  absent_or_dict (lookup "_embedded" d) = true /\
  absent_or_first_dict (sub (lookup "_embedded" d) "venues") = true /\
  v = VDict (first_venue d).
Proof.
  unfold venue0, get2, first_venue. simpl. intros Hv Ha.
  destruct v as [| | | | | |vd]; try discriminate. clear Ha.
  destruct (lookup "_embedded" d) as [[| | | | | |e]|]; simpl in *;
    try discriminate.
  - destruct (lookup "venues" e) as [u|].
    + destruct u as [| | | |s|[|u l]|]; simpl in Hv; try discriminate.
      * destruct s; discriminate.
      * injection Hv as ->. auto.
    + injection Hv as <-. auto.
  - injection Hv as <-. auto.
Qed.

Lemma get2_shape d k1 k2 default v :
  get2 (VDict d) k1 k2 default = Ok v -> absent_or_dict (lookup k1 d) = true.
Proof.
  unfold get2. simpl.
  destruct (lookup k1 d) as [[]|]; simpl; try discriminate; reflexivity.
Qed.

Lemma get2_value_default d k1 k2 default :
  absent_or_dict (lookup k1 d) = true ->
  get2 (VDict d) k1 k2 default
  = Ok (match sub (lookup k1 d) k2 with Some v => v | None => default end).
Proof.
  unfold get2. simpl.
  destruct (lookup k1 d) as [[]|]; try discriminate; reflexivity.
Qed.

Lemma filtered_event_info_closed_form d :
  filtered_shape (VDict d) = true ->
  filtered_event_info (VDict d) = Ok (filtered_row_of d).
Proof.
  unfold filtered_shape. rewrite !andb_true_iff.
  intros [[[[[[[[[He Hv] Hci] Hst] Hco] Hd] Hds] Hde] Hs] Hp].
  unfold filtered_event_info.
  rewrite (venue0_first d He Hv). rewrite !py_get_dict. cbn [bind].
  rewrite !(get3_value d "dates" "start") by assumption.
  rewrite !(get3_value d "dates" "end") by assumption.
  rewrite !(get3_value d "sales" "public") by assumption.
  cbn [bind].
  rewrite (get2_value (first_venue d) "city" "name") by assumption.
  rewrite (get2_value (first_venue d) "state" "stateCode") by assumption.
  rewrite (get2_value (first_venue d) "country" "countryCode") by assumption.
  rewrite (get2_value d "dates" "timezone") by assumption.
  reflexivity.
Qed.

Lemma filtered_event_info_shape event row :
  filtered_event_info event = Ok row -> filtered_shape event = true.
Proof.
  unfold filtered_event_info. intros H.
  bind_inv H as id Hid. destruct event as [| | | | | |d]; try discriminate.
  bind_inv H as venue_id Hvid. bind_inv Hvid as v Hv.
  bind_inv H as start_dt Hsd. bind_inv H as end_dt Hed.
  bind_inv H as city Hcity. bind_inv Hcity as v1 Hv1.
  bind_inv H as state Hstate. bind_inv Hstate as v2 Hv2.
  bind_inv H as country Hcountry. bind_inv Hcountry as v3 Hv3.
  bind_inv H as onsale_start Hos.
  assert (v1 = v) by congruence. assert (v2 = v) by congruence.
  assert (v3 = v) by congruence. subst v1 v2 v3.
  destruct (venue0_shape _ _ _ _ _ Hv Hvid) as (He & Hvs & ->).
  apply get2_shape in Hcity, Hstate, Hcountry.
  apply get3_shape in Hsd, Hed, Hos.
  destruct Hsd as [Hd Hds], Hed as [_ Hde], Hos as [Hs Hp].
  unfold filtered_shape. rewrite !andb_true_iff. repeat split; assumption.
Qed.

(** X11.  The loop of [fetch_filtered_events] flattens an event exactly
    when every key on a path is absent or holds what the path expects (an
    object for [_embedded], [dates], [start], [end], [sales], [public],
    [city], [state], [country]; a list that starts with an object for
    [venues]); every other event raises.  The row of a flattened event
    holds the values at the ends of the paths and null for every path
    that is missing. *)
Theorem filtered_rows_and_their_defaults :
  forall event,
    (filtered_shape event = true <-> succeeds (filtered_event_info event)) /\
    (forall d row,
        event = VDict d -> filtered_event_info event = Ok row ->
        row = filtered_row_of d /\
        (sub (lookup "_embedded" d) "venues" = None ->
         f_Venue_ID row = VNone /\ f_City row = VNone /\
         f_State_Code row = VNone /\ f_Country_Code row = VNone) /\
        (lookup "dates" d = None ->
         f_Start_DateTime row = VNone /\ f_End_DateTime row = VNone /\
         f_Local_Start_DateTime row = VNone /\ f_Local_End_DateTime row = VNone /\
         f_Start_End_DateTime row = VNone) /\
        (sub (lookup "sales" d) "public" = None ->
         f_Onsale_Start_DateTime row = VNone /\ f_Onsale_End_DateTime row = VNone)).
Proof.
  intros event. split.
  - split.
    + destruct event as [| | | | | |d]; try discriminate. intros H.
      eexists. apply filtered_event_info_closed_form. exact H.
    + intros (row & H). eapply filtered_event_info_shape; eauto.
  - intros d row -> Hrow.
    pose proof (filtered_event_info_shape _ _ Hrow) as Hshape.
    rewrite (filtered_event_info_closed_form d Hshape) in Hrow.
    injection Hrow as <-. split; [reflexivity|].
    unfold filtered_row_of, first_venue. cbn.
    split; [intros ->; cbn; auto|].
    split; [intros ->; cbn; repeat split|].
    intros ->; cbn; auto.
Qed.

(** ** All the events of a reply, or none *)

Lemma safe_Ok {A} (a : A) : safe (Ok a).
Proof. intros e H. discriminate. Qed.

Lemma safe_bind {A B} (r : result A) (k : A -> result B) :
  safe r -> (forall a, safe (k a)) -> safe (bind r k).
Proof.
  intros Hr Hk e. destruct r as [a|e0]; simpl.
  - apply Hk.
  - intros [= <-]. now apply Hr.
Qed.

Lemma safe_py_get v k default : safe (py_get v k default).
Proof. intros e. destruct v; simpl; intros [= <-]; reflexivity. Qed.

Lemma safe_py_item v k : safe (py_item v k).
Proof.
  intros e. destruct v; simpl; try (intros [= <-]; reflexivity).
  destruct (lookup k d); intros [= <-]; reflexivity.
Qed.

Lemma safe_py_item0 v : safe (py_item0 v).
Proof.
  intros e. destruct v as [| | | |s|[|x l]|]; simpl;
    try (intros [= <-]; reflexivity); try discriminate.
  destruct s; simpl; [intros [= <-]; reflexivity | discriminate].
Qed.

Lemma safe_py_in k v : safe (py_in k v).
Proof. intros e. destruct v; simpl; intros [= <-]; reflexivity. Qed.

Lemma safe_py_iter v : safe (py_iter v).
Proof. intros e. destruct v; simpl; intros [= <-]; reflexivity. Qed.






Lemma safe_get2 v k1 k2 default : safe (get2 v k1 k2 default).
Proof. apply safe_bind; [|intros a]; apply safe_py_get. Qed.

Lemma safe_get3 v k1 k2 k3 : safe (get3 v k1 k2 k3).
Proof.
  apply safe_bind; [apply safe_py_get|intros a].
  apply safe_bind; [|intros b]; apply safe_py_get.
Qed.

Lemma safe_venue0 v : safe (venue0 v).
Proof. apply safe_bind; [apply safe_get2 | intros a; apply safe_py_item0]. Qed.

Lemma safe_presale0 v : safe (presale0 v).
Proof. apply safe_bind; [apply safe_get2 | intros a; apply safe_py_item0]. Qed.

Lemma safe_extract_prices v : safe (extract_prices v).
Proof.
  apply safe_bind; [apply safe_py_in|intros [|]]; [|apply safe_Ok].
  apply safe_bind; [apply safe_py_item|intros a].
  apply safe_bind; [apply safe_py_item0|intros b].
  apply safe_bind; [apply safe_py_get|intros c].
  apply safe_bind; [apply safe_py_get|intros d]. apply safe_Ok.
Qed.

Ltac safe_steps :=
  repeat first
    [ apply safe_Ok | apply safe_py_get | apply safe_get2 | apply safe_get3
    | apply safe_venue0 | apply safe_presale0 | apply safe_extract_prices
    | apply safe_bind; [|intros ?] ].


Lemma safe_filtered_event_info v : safe (filtered_event_info v).
Proof. unfold filtered_event_info. safe_steps. Qed.

Lemma mapM_Forall2 {A B} (f : A -> result B) l rows :
  mapM f l = Ok rows <-> Forall2 (fun x y => f x = Ok y) l rows.
Proof.
  revert rows. induction l as [|a l IH]; intros rows; simpl.
  - split; [intros [= <-]; constructor | intros H; now inversion H].
  - split.
    + intros H. bind_inv H as y Hy. bind_inv H as ys Hys. injection H as <-.
      constructor; [assumption | now apply IH].
    + intros H. inversion H as [|? y ? ys Hy Hys]; subst.
      rewrite Hy. simpl. apply IH in Hys. now rewrite Hys.
Qed.

Lemma mapM_succeeds {A B} (f : A -> result B) l :
  Forall (fun x => succeeds (f x)) l -> succeeds (mapM f l).
Proof.
  induction 1 as [|a l (y & Hy) _ (ys & Hys)]; simpl.
  - eexists; reflexivity.
  - rewrite Hy, Hys. eexists; reflexivity.
Qed.

Lemma mapM_raises {A B} (f : A -> result B) l :
  Exists (fun x => ~ succeeds (f x)) l ->
  exists x e, In x l /\ f x = Raise e /\ mapM f l = Raise e.
Proof.
  induction l as [|a l IH]; intros H; [inversion H|].
  simpl. destruct (f a) as [y|e] eqn:Fa.
  - inversion H as [? ? Hbad|? ? Hrest]; subst.
    + exfalso. apply Hbad. eexists; eassumption.
    + destruct (IH Hrest) as (x & e & Hin & Hx & Hm).
      exists x, e. simpl. rewrite Hm. auto.
  - exists a, e. simpl. auto.
Qed.

Lemma events_of_value d :
  absent_or_dict (lookup "_embedded" d) = true ->
  get2 (VDict d) "_embedded" "events" (VList []) = Ok (events_of d).
Proof. apply get2_value_default. Qed.

Lemma performer_first_reply env a key m w rep :
  0 < m ->
  reply_at env w 0 (events_request a key) = rep ->
  is_429 rep = false ->
  get_performer_events_1 env a key m w
  = (Ok (events_outcome rep),
     mkWorld (events_request a key :: sent w) (slept w)).
Proof.
  intros Hm Hrep Hn. unfold reply_at in Hrep. rewrite Nat.add_0_r in Hrep.
  unfold get_performer_events_1, range, events_request in *.
  destruct (Z.to_nat m) as [|n] eqn:E; [lia|].
  cbn [seq map events_loop]. unfold send. rewrite Hrep.
  unfold events_outcome. destruct rep as [r|e]; [|reflexivity].
  cbn [is_429] in Hn. rewrite Hn. destruct (process_events r); reflexivity.
Qed.

Lemma fetch_first_reply env key sd ed ci st co w r :
  let req := mkRequest base_url (filter_params key sd ed ci st co) in
  reply_at env w 0 req = Responds r ->
  http_error r = None -> status_code r = 200 ->
  fetch_filtered_events env key sd ed ci st co w
  = (process_filtered r, mkWorld (req :: sent w) (slept w)).
Proof.
  intros req Hrep H2 S2. unfold reply_at in Hrep. rewrite Nat.add_0_r in Hrep.
  unfold fetch_filtered_events. fold req. rewrite range_5.
  cbn [filtered_loop]. unfold send. rewrite Hrep, H2, S2. reflexivity.
Qed.



Lemma builtin_not_http e : builtin e = true -> is_HTTPError e = false.
Proof. destruct e; simpl; congruence. Qed.


Lemma flatten_all {R} (f : pyval -> result R) evs :
  evs <> [] ->
  Forall (fun ev => succeeds (f ev)) evs ->
  exists rows,
    (events <- py_iter (VList evs) ;; events_info <- mapM f events ;;
     Ok (events_info, @None message)) = Ok (rows, None) /\
    Forall2 (fun ev row => f ev = Ok row) evs rows.
Proof.
  intros Hne Hall. destruct (mapM_succeeds f evs Hall) as (rows & Hrows).
  exists rows. simpl. rewrite Hrows. split; [reflexivity|].
  now apply mapM_Forall2.
Qed.

Lemma flatten_none {R} (f : pyval -> result R) (errors : exn -> bool) evs :
  (forall ev e, f ev = Raise e -> errors e = true) ->
  Exists (fun ev => ~ succeeds (f ev)) evs ->
  exists e,
    errors e = true /\
    (events <- py_iter (VList evs) ;; events_info <- mapM f events ;;
     Ok (events_info, @None message)) = Raise e.
Proof.
  intros Hsafe Hbad. destruct (mapM_raises f evs Hbad) as (x & e & _ & Hx & Hm).
  exists e. split; [eapply Hsafe; eassumption|]. simpl. now rewrite Hm.
Qed.

Lemma truthy_list evs : evs <> [] -> truthy (VList evs) = true.
Proof. destruct evs; [congruence | reflexivity]. Qed.


Lemma filtered_shape_succeeds ev :
  filtered_shape ev = true -> succeeds (filtered_event_info ev).
Proof.
  destruct ev as [| | | | | |d]; try discriminate. intros H.
  eexists. now apply filtered_event_info_closed_form.
Qed.

Lemma filtered_ill_shaped_fails ev :
  filtered_shape ev = false -> ~ succeeds (filtered_event_info ev).
Proof.
  intros H (row & Hrow). apply filtered_event_info_shape in Hrow. congruence.
Qed.

(** X13.  [fetch_filtered_events] gives all the events of a status 200
    reply or raises.  When the reply holds a non-empty list of events of
    the right shape, the table has one row per event, in the order of the
    list, and the error is null.  When one event of the list has another
    shape, the call returns nothing: a [KeyError], [IndexError],
    [TypeError] or [AttributeError] leaves it. *)
Theorem filtered_events_all_or_an_exception :
  forall env api_key start_date end_date city state_code country_code w r d evs,
    let req := mkRequest base_url
                 (filter_params api_key start_date end_date city state_code
                    country_code) in
    let w' := mkWorld (req :: sent w) (slept w) in
    reply_at env w 0 req = Responds r ->
    status_code r = 200 -> http_error r = None ->
    body r = Some (VDict d) ->
    absent_or_dict (lookup "_embedded" d) = true ->
    events_of d = VList evs -> evs <> [] ->
    (Forall (fun ev => filtered_shape ev = true) evs ->
     exists rows,
       fetch_filtered_events env api_key start_date end_date city state_code
         country_code w = (Ok (rows, None), w') /\
       Forall2 (fun ev row => filtered_event_info ev = Ok row) evs rows) /\
    (Exists (fun ev => filtered_shape ev = false) evs ->
     exists e,
       builtin e = true /\
       fetch_filtered_events env api_key start_date end_date city state_code
         country_code w = (Raise e, w')).
Proof.
  intros env key sd ed ci st co w r d evs req w' Hrep S2 H2 B He Hev Hne.
  rewrite (fetch_first_reply env key sd ed ci st co w r Hrep H2 S2).
  fold req w'.
  assert (P : process_filtered r
              = (events <- py_iter (VList evs) ;;
                 events_info <- mapM filtered_event_info events ;;
                 Ok (events_info, @None message))).
  { unfold process_filtered, json. rewrite B. cbn [bind].
    rewrite (events_of_value d He), Hev. cbn [bind].
    now rewrite (truthy_list evs Hne). }
  rewrite P. split.
  - intros Hall.
    destruct (flatten_all filtered_event_info evs Hne) as (rows & E & F).
    { eapply Forall_impl; [|exact Hall]. apply filtered_shape_succeeds. }
    exists rows. now rewrite E.
  - intros Hbad.
    destruct (flatten_none filtered_event_info builtin evs
                safe_filtered_event_info)
      as (e & Hb & E).
    { eapply Exists_impl; [|exact Hbad]. apply filtered_ill_shaped_fails. }
    exists e. split; [assumption|]. now rewrite E.
Qed.

(** X14.  A reply whose object has no [_embedded], or whose [_embedded]
    object has no [events], or whose [events] is empty or otherwise false
    (an empty list, null, 0, an empty string or object), is reported as
    no events: [get_performer_events_1] returns the empty table with "No
    events found for this performer.", and [fetch_filtered_events], on
    status 200, with "No events found for the given criteria.". *)
Theorem replies_without_events :
  forall env attraction_id api_key max_retries start_date end_date city
         state_code country_code w r d,
    let req := events_request attraction_id api_key in
    let freq := mkRequest base_url
                  (filter_params api_key start_date end_date city state_code
                     country_code) in
    http_error r = None ->
    body r = Some (VDict d) ->
    absent_or_dict (lookup "_embedded" d) = true ->
    truthy (events_of d) = false ->
    (0 < max_retries ->
     reply_at env w 0 req = Responds r -> status_code r <> 429 ->
     get_performer_events_1 env attraction_id api_key max_retries w
       = (Ok ([], Some no_events), mkWorld (req :: sent w) (slept w))) /\
    (reply_at env w 0 freq = Responds r -> status_code r = 200 ->
     fetch_filtered_events env api_key start_date end_date city state_code
       country_code w
       = (Ok ([], Some no_events_criteria), mkWorld (freq :: sent w) (slept w))).
Proof.
  intros env a key m sd ed ci st co w r d req freq H2 B He Hf. split.
  - intros Hm Hrep S1.
    assert (Hn : is_429 (Responds r) = false) by (now apply Z.eqb_neq).
    rewrite (performer_first_reply env a key m w _ Hm Hrep Hn).
    unfold events_outcome, process_events, json. rewrite H2, B. cbn [bind].
    rewrite (events_of_value d He). cbn [bind]. now rewrite Hf.
  - intros Hrep S2.
    rewrite (fetch_first_reply env key sd ed ci st co w r Hrep H2 S2).
    unfold process_filtered, json. rewrite B. cbn [bind].
    rewrite (events_of_value d He). cbn [bind]. now rewrite Hf.
Qed.

(** ** The cache of [find_attraction_info] *)

Lemma key_eqb_neq k k' : k <> k' -> key_eqb k k' = false.
Proof.
  intros H. destruct (key_eqb k k') eqn:E; [|reflexivity].
  apply key_eqb_eq in E. contradiction.
Qed.

Lemma cache_lookup_None k c :
  cache_lookup k c = None -> ~ In k (map fst c).
Proof.
  induction c as [|[k' r'] c IH]; simpl; [tauto|].
  destruct (key_eqb k k') eqn:E; [discriminate|].
  intros H [<-|Hin]; [|now apply IH].
  now rewrite key_eqb_refl in E.
Qed.

Lemma cache_remove_keys k c x :
  In x (map fst (cache_remove k c)) -> In x (map fst c) /\ x <> k.
Proof.
  unfold cache_remove. intros H. apply in_map_iff in H.
  destruct H as ([k' r'] & <- & Hin). apply filter_In in Hin.
  destruct Hin as [Hin Hk]. simpl in *. split.
  - apply in_map_iff. exists (k', r'). auto.
  - intros ->. now rewrite key_eqb_refl in Hk.
Qed.

Lemma cache_remove_NoDup k c :
  NoDup (map fst c) -> NoDup (map fst (cache_remove k c)).
Proof.
  induction c as [|[k' r'] c IH]; simpl; [constructor|].
  intros H. inversion H as [|? ? Hnot Hrest]; subst.
  destruct (negb (key_eqb k k')); simpl; [|auto].
  constructor; [|auto]. intros Hin. apply cache_remove_keys in Hin. tauto.
Qed.

Lemma cache_remove_shorter k c r :
  cache_lookup k c = Some r -> (length (cache_remove k c) < length c)%nat.
Proof.
  induction c as [|[k' r'] c IH]; [discriminate|].
  unfold cache_remove. cbn [cache_lookup filter fst length].
  fold (cache_remove k c).
  destruct (key_eqb k k'); cbn [negb length].
  - intros _. unfold cache_remove.
    pose proof (filter_length_le
                  (fun entry : cache_key * envelope attraction_row =>
                     negb (key_eqb k (fst entry))) c). lia.
  - intros H. apply IH in H. lia.
Qed.

Lemma firstn_NoDup {A} n (l : list A) : NoDup l -> NoDup (firstn n l).
Proof.
  revert l. induction n as [|n IH]; intros [|x l] H; simpl; try constructor.
  - inversion H; subst. intros Hin. apply In_firstn in Hin. contradiction.
  - inversion H; subst. auto.
Qed.

(** A call keeps the cache within its capacity and its keys distinct. *)
Lemma cache_bounded_step env i t k c w r c' w' :
  (length c <= maxsize)%nat /\ NoDup (map fst c) ->
  find_attraction_info env i t k c w = (r, c', w') ->
  (length c' <= maxsize)%nat /\ NoDup (map fst c').
Proof.
  unfold find_attraction_info. intros [Hlen Hnd].
  destruct (cache_lookup (i, t, k) c) as [r0|] eqn:L.
  - intros [= _ <- _]. split.
    + pose proof (cache_remove_shorter _ _ _ L). simpl. lia.
    + simpl. constructor; [|now apply cache_remove_NoDup].
      intros Hin. apply cache_remove_keys in Hin. tauto.
  - destruct (find_attraction_info_body env i t k w) as [[r0|e] w0].
    + remember (firstn maxsize ((i, t, k, r0) :: c)) as c1 eqn:Ec1.
      intros [= _ <- _]. subst c1. split.
      * apply firstn_le_length.
      * rewrite <- firstn_map. apply firstn_NoDup. simpl.
        constructor; [now apply cache_lookup_None | assumption].
    + intros [= _ <- _]. auto.
Qed.

(** X15.  The cache of [find_attraction_info] never holds more than 100
    entries and never two entries for the same identifier, type and key,
    whatever calls the process has made. *)
Theorem cache_is_bounded_with_distinct_keys :
  forall env c,
    reachable env c ->
    (length c <= 100)%nat /\ NoDup (map fst c).
Proof.
  intros env c H. change 100%nat with maxsize. induction H.
  - split; [simpl; lia | constructor].
  - eapply cache_bounded_step; eauto.
Qed.

Lemma cache_lookup_firstn_le k r c : forall j j',
  (j <= j')%nat ->
  cache_lookup k (firstn j c) = Some r ->
  cache_lookup k (firstn j' c) = Some r.
Proof.
  induction c as [|[k' r'] c IH]; intros j j' Hle.
  - rewrite !firstn_nil. auto.
  - destruct j as [|j]; [discriminate|].
    destruct j' as [|j']; [lia|]. cbn [firstn cache_lookup].
    destruct (key_eqb k k'); [auto|]. apply IH. lia.
Qed.

Lemma cache_lookup_firstn k r c j :
  cache_lookup k (firstn j c) = Some r -> cache_lookup k c = Some r.
Proof.
  intros H. rewrite <- (firstn_all c).
  destruct (Nat.le_ge_cases j (length c)).
  - eapply cache_lookup_firstn_le; eauto.
  - rewrite firstn_all2 in H by lia. now rewrite firstn_all.
Qed.

Lemma cache_lookup_remove k k2 r c : forall j,
  k <> k2 ->
  cache_lookup k (firstn j c) = Some r ->
  cache_lookup k (firstn j (cache_remove k2 c)) = Some r.
Proof.
  induction c as [|[k' r'] c IH]; intros j Hne.
  - rewrite firstn_nil. discriminate.
  - destruct j as [|j]; [discriminate|]. cbn [firstn cache_lookup].
    unfold cache_remove. cbn [filter fst]. fold (cache_remove k2 c).
    destruct (key_eqb k k') eqn:E.
    + apply key_eqb_eq in E. subst k'. intros [= ->].
      rewrite (key_eqb_neq k2 k) by congruence.
      cbn [negb firstn cache_lookup]. now rewrite key_eqb_refl.
    + intros H. destruct (key_eqb k2 k'); cbn [negb].
      * apply (cache_lookup_firstn_le k r _ j (S j)); [lia|]. now apply IH.
      * cbn [firstn cache_lookup]. rewrite E. now apply IH.
Qed.

(** A call with another key moves an entry back by one place at most. *)
Lemma entry_moves_back_by_one env k r j i2 t2 k2 c w res c' w' :
  (S j <= maxsize)%nat ->
  (i2, t2, k2) <> k ->
  cache_lookup k (firstn j c) = Some r ->
  find_attraction_info env i2 t2 k2 c w = (res, c', w') ->
  cache_lookup k (firstn (S j) c') = Some r.
Proof.
  intros Hj Hne Hk. unfold find_attraction_info.
  assert (Hskip : key_eqb k (i2, t2, k2) = false)
    by (apply key_eqb_neq; congruence).
  destruct (cache_lookup (i2, t2, k2) c) as [r0|] eqn:L.
  - intros [= _ <- _]. cbn [firstn cache_lookup]. rewrite Hskip.
    apply cache_lookup_remove; [congruence | assumption].
  - destruct (find_attraction_info_body env i2 t2 k2 w) as [[r0|e] w0].
    + remember (firstn maxsize ((i2, t2, k2, r0) :: c)) as c1 eqn:Ec1.
      intros [= _ <- _]. subst c1.
      rewrite firstn_firstn, Nat.min_l by assumption.
      cbn [firstn cache_lookup]. now rewrite Hskip.
    + intros [= _ <- _].
      apply (cache_lookup_firstn_le k r c j (S j)); [lia | assumption].
Qed.

Lemma run_calls_keeps env k r keys : forall j c w,
  (j + length keys <= maxsize)%nat ->
  Forall (fun k' => k' <> k) keys ->
  cache_lookup k (firstn j c) = Some r ->
  cache_lookup k (firstn (j + length keys) (fst (run_calls env keys c w)))
  = Some r.
Proof.
  induction keys as [|[[i2 t2] k2] keys IH]; intros j c w Hj Hne Hk.
  - simpl. now rewrite Nat.add_0_r.
  - inversion Hne as [|? ? Hhead Hrest]; subst.
    cbn [run_calls].
    destruct (find_attraction_info env i2 t2 k2 c w) as [[res c'] w'] eqn:E.
    simpl length in *.
    replace (j + S (length keys))%nat with (S j + length keys)%nat by lia.
    apply IH; [lia | assumption |].
    eapply entry_moves_back_by_one; eauto. lia.
Qed.

(** X16.  The result of a call of [find_attraction_info] stays in the
    cache through the next 99 calls with other arguments, whatever they
    are and whatever they return: the call after them with the first
    arguments is served from the cache, with the same envelope and
    without a request. *)
Theorem cached_result_survives_99_other_calls :
  forall env identifier identifier_type api_key c w r c1 w1 keys,
    find_attraction_info env identifier identifier_type api_key c w
      = (Ok r, c1, w1) ->
    Forall (fun k' => k' <> (identifier, identifier_type, api_key)) keys ->
    (length keys <= 99)%nat ->
    exists c',
      find_attraction_info env identifier identifier_type api_key
        (fst (run_calls env keys c1 w1)) (snd (run_calls env keys c1 w1))
      = (Ok r, c', snd (run_calls env keys c1 w1)).
Proof.
  intros env i t k c w r c1 w1 keys Hcall Hne Hlen.
  assert (H1 : cache_lookup (i, t, k) (firstn 1 c1) = Some r).
  { revert Hcall. unfold find_attraction_info.
    destruct (cache_lookup (i, t, k) c) as [r0|] eqn:L.
    - intros [= <- <- _]. cbn [firstn cache_lookup]. now rewrite key_eqb_refl.
    - destruct (find_attraction_info_body env i t k w) as [[r0|e] w0];
        [|discriminate].
      change (firstn maxsize ((i, t, k, r0) :: c))
        with ((i, t, k, r0) :: firstn (pred maxsize) c).
      remember (firstn (pred maxsize) c) as c0.
      intros [= <- <- _]. cbn [firstn cache_lookup]. now rewrite key_eqb_refl. }
  assert (Hcap : (1 + length keys <= maxsize)%nat) by (unfold maxsize; lia).
  pose proof (run_calls_keeps env (i, t, k) r keys 1 c1 w1 Hcap Hne H1) as Hkeep.
  apply cache_lookup_firstn in Hkeep.
  unfold find_attraction_info at 1. rewrite Hkeep. eauto.
Qed.

(** ** Queries of a name search *)

Lemma lower_char_space c : is_space c = true -> lower_char c = c.
Proof.
  destruct c as [[] [] [] [] [] [] [] []]; try reflexivity; discriminate.
Qed.

Lemma blank_splits_to_nothing s : blank s = true -> split (lower s) = [].
Proof.
  unfold split. induction s as [|c s IH]; simpl; [reflexivity|].
  intros H. apply andb_true_iff in H. destruct H as [Hc Hs].
  rewrite (lower_char_space c Hc), Hc. simpl. auto.
Qed.

Lemma match_attractions_all cands :
  Forall flattenable cands ->
  exists rows,
    match_attractions [] cands = Ok rows /\
    Forall2 (fun c row => extract_attraction_info c = Ok row) cands rows.
Proof.
  induction 1 as [|c cands (d & name & -> & Hn & Hu) _ (rows & IH & F)].
  - exists []. split; [reflexivity | constructor].
  - destruct (extract_attraction_info_total d Hu) as (row & Hrow).
    exists (row :: rows). split.
    + cbn [match_attractions]. unfold py_item. rewrite Hn.
      cbn [bind py_lower_split all_keywords_in forallb].
      now rewrite Hrow, IH.
    + now constructor.
Qed.

(** X17.  An identifier of white space only is not empty, so the name
    search goes out, and its query has no word: every candidate of the
    reply is kept.  With at least one candidate the table has one row per
    candidate, in order, and the error is null. *)
Theorem blank_identifier_keeps_every_candidate :
  forall env identifier api_key c w d e cand cands,
    let req := find_request identifier "name" api_key in
    identifier <> "" ->
    blank identifier = true ->
    cache_lookup (identifier, "name", api_key) c = None ->
    answers_200 env req w (VDict d) ->
    lookup "_embedded" d = Some (VDict e) ->
    lookup "attractions" e = Some (VList (cand :: cands)) ->
    Forall flattenable (cand :: cands) ->
    exists rows c',
      find_attraction_info env identifier "name" api_key c w
        = (Ok (rows, None), c', mkWorld (req :: sent w) (slept w)) /\
      Forall2 (fun a row => extract_attraction_info a = Ok row)
        (cand :: cands) rows.
Proof.
  intros env i key c w d e cand cands req Hi Hb Hc Ha Hd He Hf.
  destruct (match_attractions_all (cand :: cands) Hf) as (rows & Hm & F).
  assert (P : process_attractions i "name" (VDict d) = Ok (rows, None)).
  { unfold process_attractions. simpl. rewrite Hd. simpl. rewrite He.
    cbn [bind py_iter]. rewrite (blank_splits_to_nothing i Hb), Hm.
    cbn [bind]. inversion F; subst. reflexivity. }
  destruct (find_first_reply env i "name" key c w (VDict d) (rows, None))
    as (c' & E); auto.
  exists rows, c'. split; [exact E | exact F].
Qed.

Lemma case_pair_lower a b : case_pair a b -> lower_char a = lower_char b.
Proof.
  unfold case_pair. simpl. intros H.
  repeat (destruct H as [H|H]; [injection H as <- <-; reflexivity|]).
  contradiction.
Qed.

Lemma same_but_case_lower s t : same_but_case s t -> lower s = lower t.
Proof.
  induction 1 as [|c s t _ IH|a b s t Hp _ IH|a b s t Hp _ IH]; simpl.
  - reflexivity.
  - now rewrite IH.
  - now rewrite (case_pair_lower a b Hp), IH.
  - now rewrite (case_pair_lower a b Hp), IH.
Qed.

(** X18.  The name search does not tell upper case from lower case.  Two
    queries that differ in the case of their letters only give the same
    flattening of every reply and match the same names, and two names
    that differ in case only are matched by the same queries: the query
    "TAYLOR SWIFT" finds the candidate named "taylor swift". *)
Theorem name_search_ignores_case :
  (forall identifier identifier' data,
      same_but_case identifier identifier' ->
      process_attractions identifier "name" data
      = process_attractions identifier' "name" data) /\
  (forall identifier identifier' name,
      same_but_case identifier identifier' ->
      (word_match identifier name <-> word_match identifier' name)) /\
  (forall identifier name name',
      same_but_case name name' ->
      (word_match identifier name <-> word_match identifier name')) /\
  process_attractions "TAYLOR SWIFT" "name"
    (attractions_payload [named "taylor swift" "K1"])
    = Ok ([named_row "taylor swift" "K1"], None).
Proof.
  split; [|split; [|split]].
  - intros i i' data H. unfold process_attractions. cbn [String.eqb].
    now rewrite (same_but_case_lower i i' H).
  - intros i i' n H. rewrite !word_match_token_match. unfold token_match.
    now rewrite (same_but_case_lower i i' H).
  - intros i n n' H. rewrite !word_match_token_match. unfold token_match.
    now rewrite (same_but_case_lower n n' H).
  - reflexivity.
Qed.

(** X19.  An id lookup does no filtering: when the reply with status 200
    is an object that has a [name] and an [id] (and whose
    [upcomingEvents], if any, is an object), the table is the one row of
    that object, whatever the identifier asked for, and the error is
    null. *)
Theorem id_lookup_returns_the_object_as_one_row :
  forall env identifier api_key c w d name id,
    let req := find_request identifier "id" api_key in
    identifier <> "" ->
    cache_lookup (identifier, "id", api_key) c = None ->
    answers_200 env req w (VDict d) ->
    lookup "name" d = Some name ->
    lookup "id" d = Some id ->
    absent_or_dict (lookup "upcomingEvents" d) = true ->
    exists row c',
      find_attraction_info env identifier "id" api_key c w
        = (Ok ([row], None), c', mkWorld (req :: sent w) (slept w)) /\
      a_name row = name /\ a_ID row = id.
Proof.
  intros env i key c w d name id req Hi Hc Ha Hn Hid Hu.
  destruct (extract_attraction_info_total d Hu) as (row & Hrow).
  assert (P : process_attractions i "id" (VDict d) = Ok ([row], None)).
  { unfold process_attractions. simpl. rewrite Hn. simpl. rewrite Hid.
    cbn [bind]. now rewrite Hrow. }
  destruct (find_first_reply env i "id" key c w (VDict d) ([row], None))
    as (c' & E); auto.
  exists row, c'. split; [exact E|].
  unfold extract_attraction_info, get2 in Hrow. simpl in Hrow.
  rewrite Hn, Hid in Hrow.
  destruct (lookup "upcomingEvents" d) as [[]|]; try discriminate;
    simpl in Hrow; injection Hrow as <-; auto.
Qed.

(** ** A reply that is no JSON *)

Lemma find_body_first_response env i t k w r :
  t = "name" \/ t = "id" ->
  i <> "" ->
  reply_at env w 0 (find_request i t k) = Responds r ->
  status_code r = 200 -> http_error r = None ->
  find_attraction_info_body env i t k w
    = (data <- json r ;; process_attractions i t data,
       mkWorld (find_request i t k :: sent w) (slept w)).
Proof.
  intros Ht Hi E S H. unfold reply_at in E. rewrite Nat.add_0_r in E.
  unfold find_request in *. unfold find_attraction_info_body.
  replace (negb (String.eqb t "name" || String.eqb t "id")) with false
    by (destruct Ht as [-> | ->]; reflexivity).
  apply String.eqb_neq in Hi. rewrite Hi, range_5.
  cbn [find_loop]. unfold send. rewrite E, S, H.
  change (200 =? 429) with false. cbv iota beta.
  rewrite S. change (negb (200 =? 200)) with false. cbv iota.
  reflexivity.
Qed.

(** X20.  A reply with status 200 whose body is no JSON: the exception
    of [response.json()] leaves [find_attraction_info] (nothing is
    cached) and [fetch_filtered_events], while [get_performer_events_1]
    catches it and returns the empty table with "Other error occurred:
    ...".  Each has sent one request. *)
Theorem a_body_that_is_no_json :
  forall env r,
    status_code r = 200 -> http_error r = None -> body r = None ->
    (forall identifier identifier_type api_key c w,
        let req := find_request identifier identifier_type api_key in
        identifier_type = "name" \/ identifier_type = "id" ->
        identifier <> "" ->
        cache_lookup (identifier, identifier_type, api_key) c = None ->
        reply_at env w 0 req = Responds r ->
        find_attraction_info env identifier identifier_type api_key c w
          = (Raise JSONDecodeError, c, mkWorld (req :: sent w) (slept w))) /\
    (forall attraction_id api_key max_retries w,
        let req := events_request attraction_id api_key in
        0 < max_retries ->
        reply_at env w 0 req = Responds r ->
        get_performer_events_1 env attraction_id api_key max_retries w
          = (Ok ([], Some [Lit "Other error occurred: "; Exc JSONDecodeError]),
             mkWorld (req :: sent w) (slept w))) /\
    (forall api_key start_date end_date city state_code country_code w,
        let req := mkRequest base_url
                     (filter_params api_key start_date end_date city state_code
                        country_code) in
        reply_at env w 0 req = Responds r ->
        fetch_filtered_events env api_key start_date end_date city state_code
          country_code w
          = (Raise JSONDecodeError, mkWorld (req :: sent w) (slept w))).
Proof.
  intros env r S H B. split; [|split].
  - intros i t k c w req Ht Hi Hc Hrep. unfold find_attraction_info.
    rewrite Hc, (find_body_first_response env i t k w r Ht Hi Hrep S H).
    unfold json. rewrite B. reflexivity.
  - intros a k m w req Hm Hrep.
    assert (Hn : is_429 (Responds r) = false) by (simpl; now rewrite S).
    rewrite (performer_first_reply env a k m w _ Hm Hrep Hn).
    unfold events_outcome, process_events, json. now rewrite H, B.
  - intros k sd ed ci st co w req Hrep.
    rewrite (fetch_first_reply env k sd ed ci st co w r Hrep H S).
    unfold process_filtered, json. now rewrite B.
Qed.

(** * The further properties at concrete inputs *)

(** X1 on a name search that meets five 429 replies. *)
Lemma at_most_five_requests_with_doubling_delays_witness :
  let req := find_request "Test Attraction" "name" "dummy_api_key" in
  exists n k,
    (n <= 5)%nat /\ (k <= n)%nat /\
    added req 1 n k fresh (mkWorld [req; req; req; req; req] [16; 8; 4; 2; 1]).
Proof.
  intros req.
  apply (proj1 (at_most_five_requests_with_doubling_delays
                  (always too_many_requests))
           "Test Attraction" "name" "dummy_api_key" [] fresh
           (Ok ([], Some [Lit "Error fetching data: Status code "; Int 429]))
           [(test_key, ([], Some [Lit "Error fetching data: Status code "; Int 429]))]).
  reflexivity.
Defined.

(** X2 on a connection failure and a 429 followed by the payload of the
    test suite. *)
Lemma find_returns_the_first_200_within_five_attempts_witness :
  let req := find_request "Test Attraction" "name" "dummy_api_key" in
  exists c' w',
    find_attraction_info
      (replies [connection_down; Responds too_many_requests]
         (Responds (ok_response test_payload)))
      "Test Attraction" "name" "dummy_api_key" [] fresh
      = (Ok test_envelope, c', w') /\
    added req 1 3 2 fresh w'.
Proof.
  intros req.
  apply (find_returns_the_first_200_within_five_attempts
           (replies [connection_down; Responds too_many_requests]
              (Responds (ok_response test_payload)))
           "Test Attraction" "name" "dummy_api_key" [] fresh 2
           (ok_response test_payload) test_payload test_envelope).
  - left. reflexivity.
  - discriminate.
  - reflexivity.
  - lia.
  - intros [|[|i]] Hi; [reflexivity | reflexivity | lia].
  - reflexivity.
  - reflexivity.
  - reflexivity.
  - reflexivity.
  - reflexivity.
Defined.

(** X3 on a server that answers 500 every time. *)
Lemma find_gives_up_after_five_attempts_witness :
  let req := find_request "Test Attraction" "name" "dummy_api_key" in
  exists c' w',
    find_attraction_info (always server_error)
      "Test Attraction" "name" "dummy_api_key" [] fresh
      = (Ok ([], Some [Lit "Failed to fetch data after "; Int 5;
                       Lit " attempts. Error: ";
                       Exc (HTTPError
                              "500 Server Error: Internal Server Error for url")]),
         c', w') /\
    added req 1 5 4 fresh w'.
Proof.
  intros req.
  apply (proj1 (find_gives_up_after_five_attempts (always server_error)
                  "Test Attraction" "name" "dummy_api_key" [] fresh
                  (or_introl eq_refl)
                  ltac:(discriminate) eq_refl
                  ltac:(intros [|[|[|[|i]]]] Hi; try reflexivity; lia))).
  reflexivity.
Defined.

(** X4 on a reply with status 201. *)
Lemma find_first_final_reply_decides_witness :
  let req := find_request "Test Attraction" "name" "dummy_api_key" in
  exists c' w',
    find_attraction_info (always (http_response 201 "Created" (Some test_payload)))
      "Test Attraction" "name" "dummy_api_key" [] fresh
      = (Ok ([], Some [Lit "Error fetching data: Status code "; Int 201]), c', w') /\
    added req 1 1 0 fresh w'.
Proof.
  intros req.
  apply (proj1 (find_first_final_reply_decides
                  (always (http_response 201 "Created" (Some test_payload)))
                  "Test Attraction" "name" "dummy_api_key" [] fresh 0
                  (or_introl eq_refl)
                  ltac:(discriminate) eq_refl ltac:(lia)
                  ltac:(intros i Hi; lia))
           (http_response 201 "Created" (Some test_payload))).
  - reflexivity.
  - discriminate.
  - discriminate.
  - reflexivity.
Defined.

(** X5 on the HTTP error test of the suite. *)
Lemma performer_events_retries_only_rate_limits_witness :
  let req := events_request "attraction_id" "api_key" in
  exists w',
    get_performer_events_1 (always server_error) "attraction_id" "api_key" 5 fresh
      = (Ok (events_outcome (Responds server_error)), w') /\
    added req 1 1 0 fresh w'.
Proof.
  intros req.
  apply (proj1 (performer_events_retries_only_rate_limits (always server_error)
                  "attraction_id" "api_key" 5 fresh 0
                  ltac:(lia) ltac:(intros i Hi; lia) eq_refl)).
Defined.

(** X6 with three attempts allowed. *)
Lemma performer_events_rate_limit_exhausted_witness :
  let req := events_request "attraction_id" "api_key" in
  exists w',
    get_performer_events_1 (always too_many_requests)
      "attraction_id" "api_key" 3 fresh
      = (Ok ([], Some [Lit "Rate limit exceeded, try again later."]), w') /\
    added req 1 3 2 fresh w'.
Proof.
  intros req.
  apply (proj1 (performer_events_rate_limit_exhausted (always too_many_requests)
                  "attraction_id" "api_key" 3 fresh)).
  - lia.
  - intros i Hi. destruct i; reflexivity.
Defined.

(** X7 on a 429 reply. *)
Lemma fetch_filtered_events_does_not_retry_http_errors_witness :
  exists w',
    fetch_filtered_events (limited_then (ok_response (events_payload [VDict []])))
      "dummy_api_key" None None None None None fresh
      = (Ok ([], Some [Lit "HTTP error occurred: ";
                       Exc (HTTPError "429 Client Error: Too Many Requests")]),
         w') /\
    added (filter_request "dummy_api_key") 1 1 0 fresh w'.
Proof.
  apply (fetch_filtered_events_does_not_retry_http_errors
           (limited_then (ok_response (events_payload [VDict []])))
           "dummy_api_key" None None None None None fresh 0 429
           "429 Client Error: Too Many Requests" None).
  - lia.
  - intros i Hi. lia.
  - reflexivity.
  - lia.
Defined.

(** X8 on the network test of the suite. *)
Lemma fetch_filtered_events_gives_up_after_five_failures_witness :
  exists w',
    fetch_filtered_events (replies [] connection_down)
      "dummy_api_key" None None (Some "New York") None None fresh
      = (Ok ([], Some [Lit "Failed to fetch data after "; Int 5;
                       Lit " attempts. Error: ";
                       Exc (ConnectionError "connection refused")]), w') /\
    added (mkRequest base_url
             (filter_params "dummy_api_key" None None (Some "New York") None None))
      1 5 4 fresh w'.
Proof.
  apply (fetch_filtered_events_gives_up_after_five_failures
           (replies [] connection_down)
           "dummy_api_key" None None (Some "New York") None None fresh
           (ConnectionError "connection refused")).
  - intros i Hi. destruct i; reflexivity.
  - reflexivity.
Defined.

(** X9 on a reply with status 204. *)
Lemma fetch_filtered_events_first_accepted_response_decides_witness :
  exists w',
    fetch_filtered_events (always (http_response 204 "No Content" None))
      "dummy_api_key" None None None None None fresh
      = (Ok ([], Some no_response), w') /\
    added (filter_request "dummy_api_key") 1 1 0 fresh w'.
Proof.
  apply (fetch_filtered_events_first_accepted_response_decides
           (always (http_response 204 "No Content" None))
           "dummy_api_key" None None None None None fresh 0
           (http_response 204 "No Content" None)).
  - lia.
  - intros i Hi. lia.
  - reflexivity.
  - reflexivity.
Defined.

(** X10 on the candidate of the test suite. *)
Lemma attraction_rows_and_their_defaults_witness :
  a_name (named_row "Test Attraction" "123") = VStr "Test Attraction" /\
  a_ID (named_row "Test Attraction" "123") = VStr "123" /\
  a_ticketmaster_upcoming (named_row "Test Attraction" "123") = VInt 0 /\
  a_total_upcoming (named_row "Test Attraction" "123") = VInt 0.
Proof.
  apply (proj2 (attraction_rows_and_their_defaults
                  (named "Test Attraction" "123"))
           [("name", VStr "Test Attraction"); ("id", VStr "123")]
           (named_row "Test Attraction" "123")).
  - reflexivity.
  - reflexivity.
Defined.

(** X11 on the event [{}]. *)
Lemma filtered_rows_and_their_defaults_witness :
  blank_filtered_row = filtered_row_of [] /\
  f_Venue_ID blank_filtered_row = VNone /\
  f_Start_DateTime blank_filtered_row = VNone /\
  f_Onsale_Start_DateTime blank_filtered_row = VNone.
Proof.
  destruct (proj2 (filtered_rows_and_their_defaults (VDict []))
              [] blank_filtered_row eq_refl eq_refl)
    as (Hrow & Hvenue & Hdates & Hsales).
  split; [exact Hrow|].
  split; [apply Hvenue; reflexivity|].
  split; [apply Hdates; reflexivity | apply Hsales; reflexivity].
Defined.


(** X13 on a list of two events of which the second has an empty venue
    list. *)
Lemma filtered_events_all_or_an_exception_witness :
  let bad := VDict [("_embedded", VDict [("venues", VList [])])] in
  exists e,
    builtin e = true /\
    fetch_filtered_events (always (ok_response (events_payload [VDict []; bad])))
      "dummy_api_key" None None None None None fresh
      = (Raise e, mkWorld [filter_request "dummy_api_key"] []).
Proof.
  intros bad.
  apply (proj2 (filtered_events_all_or_an_exception
                  (always (ok_response (events_payload [VDict []; bad])))
                  "dummy_api_key" None None None None None fresh
                  (ok_response (events_payload [VDict []; bad]))
                  [("_embedded", VDict [("events", VList [VDict []; bad])])]
                  [VDict []; bad]
                  eq_refl eq_refl eq_refl eq_refl eq_refl eq_refl
                  ltac:(discriminate))).
  apply Exists_cons_tl. apply Exists_cons_hd. reflexivity.
Defined.

(** X14 on the malformed reply of the test suite. *)
Lemma replies_without_events_witness :
  get_performer_events_1
    (always (ok_response (VDict [("malformed_data", VStr "data")])))
    "attraction_id" "api_key" 5 fresh
  = (Ok ([], Some no_events),
     mkWorld [events_request "attraction_id" "api_key"] []).
Proof.
  apply (proj1 (replies_without_events
                  (always (ok_response (VDict [("malformed_data", VStr "data")])))
                  "attraction_id" "api_key" 5 None None None None None fresh
                  (ok_response (VDict [("malformed_data", VStr "data")]))
                  [("malformed_data", VStr "data")]
                  eq_refl eq_refl eq_refl eq_refl)).
  - lia.
  - reflexivity.
  - discriminate.
Defined.

(** X15 on the cache that the name search of the test suite leaves. *)
Lemma cache_is_bounded_with_distinct_keys_witness :
  (length [(test_key, test_envelope)] <= 100)%nat /\
  NoDup (map fst [(test_key, test_envelope)]).
Proof.
  apply (cache_is_bounded_with_distinct_keys (always (ok_response test_payload))).
  apply (reach_call (always (ok_response test_payload))
           "Test Attraction" "name" "dummy_api_key" [] fresh (Ok test_envelope)
           [(test_key, test_envelope)]
           (mkWorld [find_request "Test Attraction" "name" "dummy_api_key"] [])).
  - apply reach_empty.
  - reflexivity.
Defined.

(** X16 on the name search of the test suite followed by a search for
    another name. *)
Lemma cached_result_survives_99_other_calls_witness :
  let env := always (ok_response test_payload) in
  let c1 := [(test_key, test_envelope)] in
  let w1 := mkWorld [find_request "Test Attraction" "name" "dummy_api_key"] [] in
  let keys := [("Another Attraction", "name", "dummy_api_key")] in
  exists c',
    find_attraction_info env "Test Attraction" "name" "dummy_api_key"
      (fst (run_calls env keys c1 w1)) (snd (run_calls env keys c1 w1))
    = (Ok test_envelope, c', snd (run_calls env keys c1 w1)).
Proof.
  intros env c1 w1 keys.
  apply (cached_result_survives_99_other_calls env
           "Test Attraction" "name" "dummy_api_key" [] fresh test_envelope
           c1 w1 keys).
  - reflexivity.
  - constructor; [discriminate | constructor].
  - simpl. lia.
Defined.

(** X17 on the identifier of one space. *)
Lemma blank_identifier_keeps_every_candidate_witness :
  let cands := [named "Taylor Swift" "K1"; named "Ed Sheeran" "K3"] in
  exists rows c',
    find_attraction_info (always (ok_response (attractions_payload cands)))
      " " "name" "dummy_api_key" [] fresh
      = (Ok (rows, None), c',
         mkWorld [find_request " " "name" "dummy_api_key"] []) /\
    Forall2 (fun a row => extract_attraction_info a = Ok row) cands rows.
Proof.
  intros cands.
  apply (blank_identifier_keeps_every_candidate
           (always (ok_response (attractions_payload cands)))
           " " "dummy_api_key" [] fresh
           [("_embedded", VDict [("attractions", VList cands)])]
           [("attractions", VList cands)]
           (named "Taylor Swift" "K1") [named "Ed Sheeran" "K3"]).
  - discriminate.
  - reflexivity.
  - reflexivity.
  - exists (ok_response (attractions_payload cands)). repeat split.
  - reflexivity.
  - reflexivity.
  - repeat constructor; eexists; eexists; repeat split.
Defined.

Ltac case_pair_tac :=
  unfold case_pair; simpl; repeat (first [left; reflexivity | right]).

Ltac same_but_case_tac :=
  repeat first
    [ apply same_end
    | apply same_char
    | apply same_upper; [solve [case_pair_tac]|]
    | apply same_lower; [solve [case_pair_tac]|] ].

(** X18 on two queries and two names that differ in case only. *)
Lemma name_search_ignores_case_witness :
  process_attractions "TAYLOR swift" "name"
    (attractions_payload [named "Taylor Swift" "K1"])
  = process_attractions "taylor Swift" "name"
      (attractions_payload [named "Taylor Swift" "K1"]) /\
  (word_match "Taylor" "TAYLOR SWIFT" <-> word_match "Taylor" "taylor swift").
Proof.
  split.
  - apply (proj1 name_search_ignores_case "TAYLOR swift" "taylor Swift").
    same_but_case_tac.
  - apply (proj1 (proj2 (proj2 name_search_ignores_case))
             "Taylor" "TAYLOR SWIFT" "taylor swift").
    same_but_case_tac.
Defined.

(** X19 on the id lookup of the test suite. *)
Lemma id_lookup_returns_the_object_as_one_row_witness :
  exists row c',
    find_attraction_info (always (ok_response (named "Test Attraction" "123")))
      "123" "id" "dummy_api_key" [] fresh
      = (Ok ([row], None), c',
         mkWorld [find_request "123" "id" "dummy_api_key"] []) /\
    a_name row = VStr "Test Attraction" /\ a_ID row = VStr "123".
Proof.
  apply (id_lookup_returns_the_object_as_one_row
           (always (ok_response (named "Test Attraction" "123")))
           "123" "dummy_api_key" [] fresh
           [("name", VStr "Test Attraction"); ("id", VStr "123")]).
  - discriminate.
  - reflexivity.
  - exists (ok_response (named "Test Attraction" "123")). repeat split.
  - reflexivity.
  - reflexivity.
  - reflexivity.
Defined.

(** X20 on a reply with status 200 and no JSON in it. *)
Lemma a_body_that_is_no_json_witness :
  get_performer_events_1 (always (http_response 200 "OK" None))
    "attraction_id" "api_key" 5 fresh
  = (Ok ([], Some [Lit "Other error occurred: "; Exc JSONDecodeError]),
     mkWorld [events_request "attraction_id" "api_key"] []) /\
  fetch_filtered_events (always (http_response 200 "OK" None))
    "dummy_api_key" None None None None None fresh
  = (Raise JSONDecodeError, mkWorld [filter_request "dummy_api_key"] []).
Proof.
  destruct (a_body_that_is_no_json (always (http_response 200 "OK" None))
              (http_response 200 "OK" None) eq_refl eq_refl eq_refl)
    as (_ & Hperf & Hfetch).
  split.
  - apply (Hperf "attraction_id" "api_key" 5 fresh); [lia | reflexivity].
  - apply (Hfetch "dummy_api_key" None None None None None fresh). reflexivity.
Defined.
